(** * Lifecycle manager of kratos (app.go): a shallow embedding.

    [New] builds an [App] from functional options; [Run] spawns one
    stop-task and one start-task per transport server into an errgroup,
    registers the service instance, spawns the signal watcher and waits
    for the group; [Stop] deregisters and cancels the application
    context.

    The goroutines of [Run] are modelled by a world state and a step
    function over scheduling events: which goroutine makes progress next,
    and what the external calls (Start, Stop, Register, Deregister, OS
    signals) return, is chosen by the event.  A run is a schedule.  *)

From Stdlib Require Import String List Bool Arith Lia.
Import ListNotations.
Local Open Scope list_scope.

(** ** Errors *)

(** Go [error] values.  [Canceled] and [DeadlineExceeded] are the
    sentinels of package context; [Wrapped] is an error whose [Unwrap]
    returns the inner one (as built by [fmt.Errorf("...%w", err)]). *)
Inductive error : Type :=
| Canceled
| DeadlineExceeded
| Failure (code : nat)
| Wrapped (msg : nat) (inner : error).

Definition error_eq_dec (e1 e2 : error) : {e1 = e2} + {e1 <> e2}.
Proof. decide equality; apply Nat.eq_dec. Defined.

(** [errors.Is]: walk the [Unwrap] chain comparing with [==]. *)
Fixpoint errors_is (err target : error) : bool :=
  if error_eq_dec err target then true
  else match err with
       | Wrapped _ inner => errors_is inner target
       | _ => false
       end.

(** ** External collaborators *)

Inductive Signal : Type := SIGHUP | SIGINT | SIGQUIT | SIGTERM | SIGUSR1 | SIGUSR2.

Definition signal_eqb (s1 s2 : Signal) : bool :=
  match s1, s2 with
  | SIGHUP, SIGHUP | SIGINT, SIGINT | SIGQUIT, SIGQUIT
  | SIGTERM, SIGTERM | SIGUSR1, SIGUSR1 | SIGUSR2, SIGUSR2 => true
  | _, _ => false
  end.

(** A [transport.Server].  [Start] and [Stop] block and their outcome is
    chosen by the schedule; [Endpoint()] is the pair it returns. *)
Record Server := mkServer {
  srv_name : nat;
  srv_Endpoint : string * option error
}.

(** A [registry.Registry]; its [Register] and [Deregister] outcomes are
    chosen by the schedule. *)
Record Registry := mkRegistry { reg_name : nat }.

(** Parent context ([options.ctx]) and logger are opaque handles. *)
Definition Context := nat.
Definition Background : Context := 0.
Definition Logger := nat.
Definition DefaultLogger : Logger := 0.

(** ** registry.ServiceInstance *)

Record ServiceInstance := mkServiceInstance {
  ID : string;
  Name : string;
  Version : string;
  Metadata : list (string * string);
  Endpoints : list string
}.

(** ** options and Option *)

Record options := mkOptions {
  opt_id : string;
  opt_name : string;
  opt_version : string;
  opt_metadata : list (string * string);
  opt_endpoints : list string;
  opt_ctx : Context;
  opt_sigs : list Signal;
  opt_logger : Logger;
  opt_registry : option Registry;
  opt_servers : list Server
}.

(** [type Option func(o *options)]. *)
Definition Option := options -> options.

Definition set_id (v : string) (o : options) : options :=
  {| opt_id := v; opt_name := opt_name o; opt_version := opt_version o;
     opt_metadata := opt_metadata o; opt_endpoints := opt_endpoints o;
     opt_ctx := opt_ctx o; opt_sigs := opt_sigs o; opt_logger := opt_logger o;
     opt_registry := opt_registry o; opt_servers := opt_servers o |}.

Definition set_endpoints (v : list string) (o : options) : options :=
  {| opt_id := opt_id o; opt_name := opt_name o; opt_version := opt_version o;
     opt_metadata := opt_metadata o; opt_endpoints := v;
     opt_ctx := opt_ctx o; opt_sigs := opt_sigs o; opt_logger := opt_logger o;
     opt_registry := opt_registry o; opt_servers := opt_servers o |}.

(** ** serviceInstance *)

(** Observable calls to the collaborators, most recent first. *)
Inductive Call : Type :=
| TEndpoint (srv : nat)
| TRegister (inst : ServiceInstance) (r : option error)
| TDeregister (inst : ServiceInstance) (r : option error)
| TStart (i : nat) (r : option error)
| TStop (i : nat) (r : option error)
| TAppStop
| TCancel.

(** The loop [for _, srv := range o.servers { if e, err := srv.Endpoint();
    err == nil { o.endpoints = append(o.endpoints, e) } }], with the
    [Endpoint] calls it makes. *)
Fixpoint collect_endpoints (servers : list Server) (acc : list string)
    (calls : list Call) : list string * list Call :=
  match servers with
  | [] => (acc, calls)
  | srv :: rest =>
      let calls' := TEndpoint (srv_name srv) :: calls in
      match srv_Endpoint srv with
      | (e, None) => collect_endpoints rest (acc ++ [e]) calls'
      | (_, Some _) => collect_endpoints rest acc calls'
      end
  end.

Definition serviceInstance (o : options) : ServiceInstance * list Call :=
  let '(eps, calls) :=
    match opt_endpoints o with
    | [] => collect_endpoints (opt_servers o) (opt_endpoints o) []
    | _ => (opt_endpoints o, [])
    end in
  let o := set_endpoints eps o in
  ({| ID := opt_id o; Name := opt_name o; Version := opt_version o;
      Metadata := opt_metadata o; Endpoints := opt_endpoints o |}, calls).

(** ** App and New *)

Record App := mkApp {
  app_opts : options;
  app_cancel : bool;             (* [a.cancel != nil] *)
  app_instance : ServiceInstance
}.

Definition default_options : options :=
  {| opt_id := ""%string; opt_name := ""%string; opt_version := ""%string; opt_metadata := [];
     opt_endpoints := []; opt_ctx := Background;
     opt_sigs := [SIGTERM; SIGQUIT; SIGINT]; opt_logger := DefaultLogger;
     opt_registry := None; opt_servers := [] |}.

(** [uuid.NewUUID()] returns a UUID (given here by its [String()]) and an
    error; the options are then applied in order. *)
Definition new_options (uuid : string * option error) (opts : list Option) : options :=
  let o0 := match uuid with
            | (id, None) => set_id id default_options
            | (_, Some _) => default_options
            end in
  fold_left (fun o f => f o) opts o0.

Definition New (uuid : string * option error) (opts : list Option) : App :=
  let o := new_options uuid opts in
  {| app_opts := o; app_cancel := true; app_instance := fst (serviceInstance o) |}.

(** ** World state *)

Inductive TaskSt : Type := TRunning | TDone.
Inductive WatcherSt : Type := WNotSpawned | WLooping | WDone.
Inductive MainPC : Type :=
| MIdle                        (* Run not called *)
| MRegister                    (* blocked in Register *)
| MWait                        (* blocked in g.Wait() *)
| MReturned (r : option error).

Record World := mkWorld {
  w_inst : ServiceInstance;      (* the cell [a.instance] points to *)
  w_aerr : option error;         (* [a.ctx.Err()] *)
  w_gerr : option error;         (* [ctx.Err()] of the errgroup context *)
  w_grp : option error;          (* [g.err], the first error recorded *)
  w_stop_tasks : list TaskSt;    (* stop-task of each server *)
  w_start_tasks : list TaskSt;   (* start-task of each server *)
  w_watcher : WatcherSt;
  w_notified : bool;             (* [signal.Notify(c, ...)] done *)
  w_chan : option Signal;        (* the buffer of [c], capacity 1 *)
  w_main : MainPC;
  w_trace : list Call
}.

Definition world0 (a : App) : World :=
  {| w_inst := app_instance a; w_aerr := None; w_gerr := None; w_grp := None;
     w_stop_tasks := []; w_start_tasks := []; w_watcher := WNotSpawned;
     w_notified := false; w_chan := None; w_main := MIdle; w_trace := [] |}.

Definition add_trace (c : Call) (w : World) : World :=
  {| w_inst := w_inst w; w_aerr := w_aerr w; w_gerr := w_gerr w; w_grp := w_grp w;
     w_stop_tasks := w_stop_tasks w; w_start_tasks := w_start_tasks w;
     w_watcher := w_watcher w; w_notified := w_notified w; w_chan := w_chan w;
     w_main := w_main w; w_trace := c :: w_trace w |}.

(** Cancelling [a.ctx] with error [e] (by [a.cancel()] or by the parent
    context): the first cancellation wins and propagates to the child
    errgroup context. *)
Definition cancel_ctx (e : error) (w : World) : World :=
  match w_aerr w with
  | Some _ => w
  | None =>
      {| w_inst := w_inst w; w_aerr := Some e;
         w_gerr := match w_gerr w with None => Some e | g => g end;
         w_grp := w_grp w; w_stop_tasks := w_stop_tasks w;
         w_start_tasks := w_start_tasks w; w_watcher := w_watcher w;
         w_notified := w_notified w; w_chan := w_chan w; w_main := w_main w;
         w_trace := w_trace w |}
  end.

(** ** Stop *)

(** [func (a *App) Stop() error]; [dr] is what [Deregister] returns. *)
Definition Stop (a : App) (dr : option error) (w : World) : option error * World :=
  let w := add_trace TAppStop w in
  let dereg :=
    match opt_registry (app_opts a) with
    | Some _ =>
        let w := add_trace (TDeregister (w_inst w) dr) w in
        match dr with Some e => inl (Some e, w) | None => inr w end
    | None => inr w
    end in
  match dereg with
  | inl res => res
  | inr w =>
      if app_cancel a then (None, cancel_ctx Canceled (add_trace TCancel w))
      else (None, w)
  end.

(** ** errgroup and the goroutines of Run *)

Fixpoint upd {A} (l : list A) (i : nat) (x : A) : list A :=
  match l, i with
  | [], _ => []
  | _ :: t, 0 => x :: t
  | h :: t, S i => h :: upd t i x
  end.

Definition set_tasks (stops starts : list TaskSt) (w : World) : World :=
  {| w_inst := w_inst w; w_aerr := w_aerr w; w_gerr := w_gerr w; w_grp := w_grp w;
     w_stop_tasks := stops; w_start_tasks := starts;
     w_watcher := w_watcher w; w_notified := w_notified w; w_chan := w_chan w;
     w_main := w_main w; w_trace := w_trace w |}.

Definition set_watcher (ws : WatcherSt) (w : World) : World :=
  {| w_inst := w_inst w; w_aerr := w_aerr w; w_gerr := w_gerr w; w_grp := w_grp w;
     w_stop_tasks := w_stop_tasks w; w_start_tasks := w_start_tasks w;
     w_watcher := ws; w_notified := w_notified w; w_chan := w_chan w;
     w_main := w_main w; w_trace := w_trace w |}.

Definition set_chan (c : option Signal) (w : World) : World :=
  {| w_inst := w_inst w; w_aerr := w_aerr w; w_gerr := w_gerr w; w_grp := w_grp w;
     w_stop_tasks := w_stop_tasks w; w_start_tasks := w_start_tasks w;
     w_watcher := w_watcher w; w_notified := w_notified w; w_chan := c;
     w_main := w_main w; w_trace := w_trace w |}.

Definition set_main (m : MainPC) (w : World) : World :=
  {| w_inst := w_inst w; w_aerr := w_aerr w; w_gerr := w_gerr w; w_grp := w_grp w;
     w_stop_tasks := w_stop_tasks w; w_start_tasks := w_start_tasks w;
     w_watcher := w_watcher w; w_notified := w_notified w; w_chan := w_chan w;
     w_main := m; w_trace := w_trace w |}.

(** The cancel function of [errgroup.WithContext]. *)
Definition grp_cancel (w : World) : World :=
  {| w_inst := w_inst w; w_aerr := w_aerr w;
     w_gerr := match w_gerr w with None => Some Canceled | g => g end;
     w_grp := w_grp w; w_stop_tasks := w_stop_tasks w;
     w_start_tasks := w_start_tasks w; w_watcher := w_watcher w;
     w_notified := w_notified w; w_chan := w_chan w; w_main := w_main w;
     w_trace := w_trace w |}.

(** A goroutine of [g.Go] returns [r]:
    [if err := f(); err != nil { g.errOnce.Do(func() { g.err = err;
    if g.cancel != nil { g.cancel() } }) }]. *)
Definition task_return (r : option error) (w : World) : World :=
  match r, w_grp w with
  | Some e, None =>
      grp_cancel
        {| w_inst := w_inst w; w_aerr := w_aerr w; w_gerr := w_gerr w;
           w_grp := Some e; w_stop_tasks := w_stop_tasks w;
           w_start_tasks := w_start_tasks w; w_watcher := w_watcher w;
           w_notified := w_notified w; w_chan := w_chan w; w_main := w_main w;
           w_trace := w_trace w |}
  | _, _ => w
  end.

(** [c := make(chan os.Signal, 1); signal.Notify(c, a.opts.sigs...)] and
    the spawn of the watcher; then [g.Wait()]. *)
Definition after_register (w : World) : World :=
  {| w_inst := w_inst w; w_aerr := w_aerr w; w_gerr := w_gerr w; w_grp := w_grp w;
     w_stop_tasks := w_stop_tasks w; w_start_tasks := w_start_tasks w;
     w_watcher := WLooping; w_notified := true; w_chan := None;
     w_main := MWait; w_trace := w_trace w |}.

(** Entry of [Run]: [errgroup.WithContext(a.ctx)] (the child context is
    already done if [a.ctx] is), the two goroutines per server, then either
    [Register] (if a registry is configured) or the watcher. *)
Definition run_start (a : App) (w : World) : World :=
  let n := length (opt_servers (app_opts a)) in
  let w1 :=
    {| w_inst := w_inst w; w_aerr := w_aerr w; w_gerr := w_aerr w; w_grp := None;
       w_stop_tasks := repeat TRunning n; w_start_tasks := repeat TRunning n;
       w_watcher := WNotSpawned; w_notified := w_notified w; w_chan := w_chan w;
       w_main := MRegister; w_trace := w_trace w |} in
  match opt_registry (app_opts a) with
  | Some _ => w1
  | None => after_register w1
  end.

(** [if err := g.Wait(); err != nil && !errors.Is(err, context.Canceled)
    { return err }; return nil]. *)
Definition wait_result (err : option error) : option error :=
  match err with
  | Some e => if negb (errors_is e Canceled) then Some e else None
  | None => None
  end.

Definition all_done (w : World) : bool :=
  forallb (fun t => match t with TDone => true | TRunning => false end)
    (w_stop_tasks w ++ w_start_tasks w) &&
  match w_watcher w with WDone => true | _ => false end.

Inductive Event : Type :=
| EvRun                                   (* a caller invokes [a.Run()] *)
| EvStartReturn (i : nat) (r : option error)  (* [srv.Start()] of server i returns r *)
| EvStopTask (i : nat) (r : option error)     (* stop-task i passes [<-ctx.Done()], [srv.Stop()] returns r *)
| EvRegisterReturn (r : option error)         (* [Register] returns r *)
| EvSignal (s : Signal)                       (* the OS delivers s *)
| EvWatcherSignal (dr : option error)         (* watcher takes [<-c], calls [a.Stop()]; Deregister returns dr *)
| EvWatcherDone                               (* watcher takes [<-ctx.Done()] *)
| EvStop (dr : option error)                  (* a caller invokes [a.Stop()] *)
| EvParentDone (deadline : bool)              (* the parent context is canceled or times out *)
| EvWaitReturn.                               (* [g.Wait()] returns *)

(** One step of the program; [None] when the event is not enabled. *)
Definition step (a : App) (w : World) (ev : Event) : option World :=
  match ev with
  | EvRun =>
      match w_main w with MIdle => Some (run_start a w) | _ => None end
  | EvStartReturn i r =>
      match nth_error (w_start_tasks w) i with
      | Some TRunning =>
          Some (task_return r (add_trace (TStart i r)
                  (set_tasks (w_stop_tasks w) (upd (w_start_tasks w) i TDone) w)))
      | _ => None
      end
  | EvStopTask i r =>
      match nth_error (w_stop_tasks w) i, w_gerr w with
      | Some TRunning, Some _ =>
          Some (task_return r (add_trace (TStop i r)
                  (set_tasks (upd (w_stop_tasks w) i TDone) (w_start_tasks w) w)))
      | _, _ => None
      end
  | EvRegisterReturn r =>
      match w_main w with
      | MRegister =>
          let w := add_trace (TRegister (w_inst w) r) w in
          match r with
          | Some e => Some (set_main (MReturned (Some e)) w)
          | None => Some (after_register w)
          end
      | _ => None
      end
  | EvSignal s =>
      if w_notified w && existsb (signal_eqb s) (opt_sigs (app_opts a)) then
        match w_chan w with
        | None => Some (set_chan (Some s) w)
        | Some _ => Some w          (* the send does not block: dropped *)
        end
      else None
  | EvWatcherSignal dr =>
      match w_watcher w, w_chan w with
      | WLooping, Some _ => Some (snd (Stop a dr (set_chan None w)))
      | _, _ => None
      end
  | EvWatcherDone =>
      match w_watcher w, w_gerr w with
      | WLooping, Some e => Some (task_return (Some e) (set_watcher WDone w))
      | _, _ => None
      end
  | EvStop dr => Some (snd (Stop a dr w))
  | EvParentDone deadline =>
      Some (cancel_ctx (if deadline then DeadlineExceeded else Canceled) w)
  | EvWaitReturn =>
      match w_main w with
      | MWait =>
          if all_done w then Some (set_main (MReturned (wait_result (w_grp w))) (grp_cancel w))
          else None
      | _ => None
      end
  end.

Fixpoint run_sched (a : App) (w : World) (evs : list Event) : option World :=
  match evs with
  | [] => Some w
  | ev :: rest =>
      match step a w ev with
      | Some w' => run_sched a w' rest
      | None => None
      end
  end.

(** ** Concrete configurations *)

Definition srv_ok (n : nat) : Server := mkServer n ("http://h"%string, None).
Definition srv_noep (n : nat) : Server := mkServer n (""%string, Some (Failure 99)).

Definition with_servers (ss : list Server) : Option :=
  fun o => {| opt_id := opt_id o; opt_name := opt_name o; opt_version := opt_version o;
              opt_metadata := opt_metadata o; opt_endpoints := opt_endpoints o;
              opt_ctx := opt_ctx o; opt_sigs := opt_sigs o; opt_logger := opt_logger o;
              opt_registry := opt_registry o; opt_servers := ss |}.

Definition with_registry (r : Registry) : Option :=
  fun o => {| opt_id := opt_id o; opt_name := opt_name o; opt_version := opt_version o;
              opt_metadata := opt_metadata o; opt_endpoints := opt_endpoints o;
              opt_ctx := opt_ctx o; opt_sigs := opt_sigs o; opt_logger := opt_logger o;
              opt_registry := Some r; opt_servers := opt_servers o |}.

Definition uuid_ok : string * option error := ("6ba7b810"%string, None).

(** Scenario A of the spec: S1 blocks until cancelled, S2 fails on start. *)
Definition appA : App := New uuid_ok [with_servers [srv_ok 1; srv_ok 2]].
Definition schedA : list Event :=
  [EvRun; EvStartReturn 1 (Some (Failure 2)); EvStopTask 0 None; EvStopTask 1 None;
   EvWatcherDone; EvStartReturn 0 None; EvWaitReturn].

Example scenarioA_returns_failure :
  option_map w_main (run_sched appA (world0 appA) schedA) = Some (MReturned (Some (Failure 2))).
Proof. reflexivity. Qed.

(** Scenario B: registry, register ok, one signal, deregister ok. *)
Definition appB : App := New uuid_ok [with_servers [srv_ok 1]; with_registry (mkRegistry 5)].
Definition schedB : list Event :=
  [EvRun; EvRegisterReturn None; EvSignal SIGTERM; EvWatcherSignal None;
   EvStopTask 0 None; EvStartReturn 0 None; EvWatcherDone; EvWaitReturn].

Example scenarioB_returns_nil :
  option_map w_main (run_sched appB (world0 appB) schedB) = Some (MReturned None).
Proof. reflexivity. Qed.

(** ** Specification-side definitions *)

(** The endpoints of the servers whose [Endpoint()] succeeded, in order. *)
Definition successful_endpoints (servers : list Server) : list string :=
  flat_map (fun s => match srv_Endpoint s with (e, None) => [e] | _ => [] end) servers.

(** [n] further calls of [Stop], each with a succeeding deregister. *)
Fixpoint stop_many (a : App) (n : nat) (w : World) : list (option error) * World :=
  match n with
  | 0 => ([], w)
  | S n' =>
      let '(r, w1) := Stop a None w in
      let '(rs, w2) := stop_many a n' w1 in
      (r :: rs, w2)
  end.

(** ** Lemmas *)

Lemma fold_options_preserves {T} (P : options -> T) (opts : list Option) (o : options) :
  (forall f, In f opts -> forall x, P (f x) = P x) ->
  P (fold_left (fun o f => f o) opts o) = P o.
Proof.
  revert o; induction opts as [|f rest IH]; intros o H; simpl; [reflexivity|].
  rewrite IH; [apply H; left; reflexivity|].
  intros g Hg; apply H; right; exact Hg.
Qed.

Lemma collect_endpoints_eq (servers : list Server) (acc : list string) (calls : list Call) :
  collect_endpoints servers acc calls =
  (acc ++ successful_endpoints servers,
   rev (map (fun s => TEndpoint (srv_name s)) servers) ++ calls).
Proof.
  revert acc calls; induction servers as [|s rest IH]; intros acc calls; simpl.
  - rewrite app_nil_r; reflexivity.
  - destruct (srv_Endpoint s) as [e [err|]]; rewrite IH; simpl;
      rewrite <- !app_assoc; reflexivity.
Qed.

Lemma cancel_ctx_fired (e : error) (w : World) :
  w_aerr (cancel_ctx e w) = match w_aerr w with None => Some e | x => x end.
Proof. unfold cancel_ctx; destruct (w_aerr w) eqn:E; simpl; congruence. Qed.

Lemma cancel_ctx_trace (e : error) (w : World) :
  w_trace (cancel_ctx e w) = w_trace w.
Proof. unfold cancel_ctx; destruct (w_aerr w); reflexivity. Qed.

Lemma cancel_ctx_done (e e' : error) (w : World) :
  w_aerr w = Some e' -> cancel_ctx e w = w.
Proof. unfold cancel_ctx; intros ->; reflexivity. Qed.

(** ** Claims *)

(** C1: for an App built by [New], if a registry is configured and
    [Deregister] fails with [e], [Stop] returns [e] and leaves the world as
    it was apart from the two calls it made (no [a.cancel()]); if no
    registry is configured or [Deregister] succeeds, [Stop] fires the
    token ([a.cancel()] is called) and returns nil. *)
Theorem Stop_cancels_unless_deregister_fails
    (uuid : string * option error) (opts : list Option) (w : World) (dr : option error) :
  let a := New uuid opts in
  (forall r e, opt_registry (app_opts a) = Some r -> dr = Some e ->
     Stop a dr w = (Some e, add_trace (TDeregister (w_inst w) dr) (add_trace TAppStop w))) /\
  (opt_registry (app_opts a) = None \/ dr = None ->
     fst (Stop a dr w) = None /\
     w_aerr (snd (Stop a dr w)) = match w_aerr w with None => Some Canceled | x => x end /\
     In TCancel (w_trace (snd (Stop a dr w)))).
Proof.
  intro a; split.
  - intros r e Hr ->; unfold Stop; rewrite Hr; reflexivity.
  - intros H; unfold Stop; simpl app_cancel.
    destruct H as [H | ->]; [rewrite H | destruct (opt_registry (app_opts a))];
      simpl; rewrite cancel_ctx_fired, cancel_ctx_trace; simpl; auto.
Qed.

Lemma Stop_cancels_unless_deregister_fails_witness :
  Stop appB (Some (Failure 4)) (world0 appB) =
    (Some (Failure 4), add_trace (TDeregister (w_inst (world0 appB)) (Some (Failure 4)))
                         (add_trace TAppStop (world0 appB))) /\
  fst (Stop appA (Some (Failure 4)) (world0 appA)) = None.
Proof.
  split.
  - exact (proj1 (Stop_cancels_unless_deregister_fails uuid_ok
             [with_servers [srv_ok 1]; with_registry (mkRegistry 5)] (world0 appB)
             (Some (Failure 4))) (mkRegistry 5) (Failure 4) eq_refl eq_refl).
  - exact (proj1 (proj2 (Stop_cancels_unless_deregister_fails uuid_ok
             [with_servers [srv_ok 1; srv_ok 2]] (world0 appA) (Some (Failure 4)))
             (or_introl eq_refl))).
Defined.

(** C3: with an empty explicit endpoint list, the instance built by [New]
    advertises, in server order, exactly the endpoints whose [Endpoint()]
    call succeeded, every server being queried once; with a non-empty
    explicit list, that list is used as it is and no server is queried. *)
Theorem New_instance_endpoints (uuid : string * option error) (opts : list Option) :
  let o := new_options uuid opts in
  (opt_endpoints o = [] ->
     Endpoints (app_instance (New uuid opts)) = successful_endpoints (opt_servers o) /\
     snd (serviceInstance o) = rev (map (fun s => TEndpoint (srv_name s)) (opt_servers o))) /\
  (opt_endpoints o <> [] ->
     Endpoints (app_instance (New uuid opts)) = opt_endpoints o /\
     snd (serviceInstance o) = []).
Proof.
  intro o; unfold New, serviceInstance; fold o; split; intro H.
  - rewrite H, collect_endpoints_eq; simpl; rewrite app_nil_r; auto.
  - destruct (opt_endpoints o) eqn:E; [congruence|]; simpl; auto.
Qed.

Lemma New_instance_endpoints_witness :
  Endpoints (app_instance (New uuid_ok [with_servers [srv_ok 1; srv_noep 2; srv_ok 3]]))
    = ["http://h"%string; "http://h"%string] /\
  Endpoints (app_instance (New uuid_ok [set_endpoints ["grpc://x"%string]; with_servers [srv_ok 1]]))
    = ["grpc://x"%string].
Proof.
  split.
  - rewrite (proj1 (proj1 (New_instance_endpoints uuid_ok
                              [with_servers [srv_ok 1; srv_noep 2; srv_ok 3]]) eq_refl)).
    reflexivity.
  - rewrite (proj1 (proj2 (New_instance_endpoints uuid_ok
                              [set_endpoints ["grpc://x"%string]; with_servers [srv_ok 1]])
                          ltac:(discriminate))).
    reflexivity.
Defined.

(** C5: once the token has fired, any number of further [Stop] calls whose
    deregister succeeds return nil and leave both contexts as they are. *)
Theorem Stop_idempotent_after_cancel (a : App) (w : World) (e : error) (n : nat)
    (Hfired : w_aerr w = Some e) :
  Forall (fun r => r = None) (fst (stop_many a n w)) /\
  w_aerr (snd (stop_many a n w)) = Some e /\
  w_gerr (snd (stop_many a n w)) = w_gerr w.
Proof.
  revert w Hfired; induction n as [|n IH]; intros w Hfired; simpl; [auto|].
  assert (Hs : exists w1, Stop a None w = (None, w1) /\ w_aerr w1 = Some e /\
                          w_gerr w1 = w_gerr w).
  { unfold Stop; destruct (opt_registry (app_opts a)), (app_cancel a); simpl;
      (eexists; split; [reflexivity|]);
      try (rewrite cancel_ctx_done with (e' := e); [|exact Hfired]); simpl; auto. }
  destruct Hs as [w1 [-> [H1 H2]]].
  destruct (stop_many a n w1) as [rs w2] eqn:E.
  destruct (IH w1 H1) as [IH1 [IH2 IH3]]; rewrite E in IH1, IH2, IH3; simpl in *.
  split; [constructor; auto|]; split; congruence.
Qed.

Lemma Stop_idempotent_after_cancel_witness :
  w_aerr (snd (stop_many appB 3 (snd (Stop appB None (world0 appB))))) = Some Canceled.
Proof.
  exact (proj1 (proj2 (Stop_idempotent_after_cancel appB
    (snd (Stop appB None (world0 appB))) Canceled 3 eq_refl))).
Defined.

(** C9: when no option touches the signal set, [New] keeps the default
    [SIGTERM; SIGQUIT; SIGINT], and once notified exactly these signals
    are delivered to the watcher's channel. *)
Theorem New_default_signals (uuid : string * option error) (opts : list Option)
    (Hsigs : forall f, In f opts -> forall o, opt_sigs (f o) = opt_sigs o) :
  opt_sigs (app_opts (New uuid opts)) = [SIGTERM; SIGQUIT; SIGINT] /\
  (forall w s, w_notified w = true ->
     step (New uuid opts) w (EvSignal s) <> None <-> In s [SIGTERM; SIGQUIT; SIGINT]).
Proof.
  assert (Hs : opt_sigs (app_opts (New uuid opts)) = [SIGTERM; SIGQUIT; SIGINT]).
  { unfold New, new_options; simpl.
    rewrite (fold_options_preserves opt_sigs opts _ Hsigs).
    destruct uuid as [id [err|]]; reflexivity. }
  split; [exact Hs|].
  intros w s Hn; unfold step; rewrite Hn, Hs; simpl.
  destruct s; simpl; split; intro H;
    try (destruct (w_chan w); discriminate); try tauto;
    try (destruct H as [H|[H|[H|[]]]]; discriminate).
Qed.

Lemma New_default_signals_witness :
  opt_sigs (app_opts appA) = [SIGTERM; SIGQUIT; SIGINT].
Proof.
  apply (New_default_signals uuid_ok [with_servers [srv_ok 1; srv_ok 2]]).
  intros f [<-|[]] o; reflexivity.
Defined.

(** C10: if [uuid.NewUUID()] fails and no option sets the id, [New]
    still returns an App, whose id and instance id are the empty string. *)
Theorem New_uuid_failure_empty_id (u : string) (err : error) (opts : list Option)
    (Hid : forall f, In f opts -> forall o, opt_id (f o) = opt_id o) :
  opt_id (app_opts (New (u, Some err) opts)) = ""%string /\
  ID (app_instance (New (u, Some err) opts)) = ""%string.
Proof.
  unfold New, new_options, serviceInstance; simpl.
  rewrite (fold_options_preserves opt_id opts _ Hid).
  destruct (opt_endpoints _); [destruct (collect_endpoints _ _ _)|]; simpl; auto.
Qed.

Lemma New_uuid_failure_empty_id_witness :
  ID (app_instance (New ("00000000"%string, Some (Failure 1)) [with_servers [srv_ok 1]])) = ""%string.
Proof.
  apply (New_uuid_failure_empty_id "00000000"%string (Failure 1) [with_servers [srv_ok 1]]).
  intros f [<-|[]] o; reflexivity.
Defined.

(** The world reached by a schedule from a fresh App world. *)
Definition run_or (a : App) (evs : list Event) : World :=
  match run_sched a (world0 a) evs with Some w => w | None => world0 a end.

(** C4: the final step of [Run] maps the group's result: nil or an error
    that [errors.Is] context.Canceled gives nil; a non-nil result is the
    group's error and it is not a cancellation. *)
Theorem Run_wait_result (a : App) (w w' : World)
    (Hw : step a w EvWaitReturn = Some w') :
  ((w_grp w = None \/ exists e, w_grp w = Some e /\ errors_is e Canceled = true) ->
     w_main w' = MReturned None) /\
  (forall e, w_main w' = MReturned (Some e) ->
     w_grp w = Some e /\ errors_is e Canceled = false).
Proof.
  unfold step in Hw; destruct (w_main w); try discriminate.
  destruct (all_done w); [|discriminate].
  injection Hw as <-; simpl; unfold wait_result; split.
  - intros [-> | [e [-> He]]]; [reflexivity|]; rewrite He; reflexivity.
  - intros e H; injection H as H; destruct (w_grp w) as [g|]; [|discriminate].
    destruct (errors_is g Canceled) eqn:Eg; simpl in H; [discriminate|].
    injection H as ->; auto.
Qed.

Lemma Run_wait_result_witness :
  w_main (run_or appB schedB) = MReturned None.
Proof.
  apply (proj1 (Run_wait_result appB (run_or appB (removelast schedB)) (run_or appB schedB)
                  ltac:(vm_compute; reflexivity))).
  right; exists Canceled; split; [vm_compute; reflexivity | reflexivity].
Defined.

(** C2: with a registry configured, [Run] blocks in [Register] after
    spawning the server goroutines and before the watcher; if [Register]
    fails with [e], [Run] returns [e] at once, without touching either
    context, the group or the spawned goroutines. *)
Theorem Run_register_failure (a : App) (w : World) (r : Registry) (e : error)
    (Hreg : opt_registry (app_opts a) = Some r) :
  (w_main w = MIdle ->
     step a w EvRun = Some (run_start a w) /\
     w_main (run_start a w) = MRegister /\
     w_watcher (run_start a w) = WNotSpawned /\
     w_aerr (run_start a w) = w_aerr w /\ w_gerr (run_start a w) = w_aerr w) /\
  (w_main w = MRegister ->
     exists w', step a w (EvRegisterReturn (Some e)) = Some w' /\
       w_main w' = MReturned (Some e) /\
       w_aerr w' = w_aerr w /\ w_gerr w' = w_gerr w /\ w_grp w' = w_grp w /\
       w_stop_tasks w' = w_stop_tasks w /\ w_start_tasks w' = w_start_tasks w /\
       w_watcher w' = w_watcher w /\ w_trace w' = TRegister (w_inst w) (Some e) :: w_trace w).
Proof.
  split; intro Hm.
  - unfold step; rewrite Hm; unfold run_start; rewrite Hreg; simpl; auto 10.
  - unfold step; rewrite Hm; eexists; split; [reflexivity|]; simpl; auto 10.
Qed.

Lemma Run_register_failure_witness :
  w_main (run_or appB [EvRun; EvRegisterReturn (Some (Failure 3))]) = MReturned (Some (Failure 3)).
Proof.
  destruct (proj2 (Run_register_failure appB (run_or appB [EvRun]) (mkRegistry 5) (Failure 3)
                     eq_refl) eq_refl) as [w' [Hs [Hm _]]].
  unfold run_or at 1.
  change (run_sched appB (world0 appB) [EvRun; EvRegisterReturn (Some (Failure 3))]) with
    (match step appB (run_or appB [EvRun]) (EvRegisterReturn (Some (Failure 3))) with
     | Some w => run_sched appB w [] | None => None end).
  rewrite Hs; exact Hm.
Defined.

(** The instance passed to [Register]/[Deregister] in a call. *)
Definition call_ok (i : ServiceInstance) (c : Call) : Prop :=
  match c with
  | TRegister j _ | TDeregister j _ => j = i
  | _ => True
  end.

Definition inst_intact (i : ServiceInstance) (w : World) : Prop :=
  w_inst w = i /\ Forall (call_ok i) (w_trace w).

(** Helpers that touch neither the instance cell nor the call trace. *)
Definition frame (f : World -> World) : Prop :=
  forall w, w_inst (f w) = w_inst w /\ w_trace (f w) = w_trace w.

Ltac frame_tac :=
  intro w; repeat match goal with
                  | |- context [match ?x with _ => _ end] => destruct x
                  end; simpl; auto.

Lemma frame_cancel_ctx e : frame (cancel_ctx e).
Proof. unfold cancel_ctx; frame_tac. Qed.
Lemma frame_grp_cancel : frame grp_cancel.
Proof. unfold grp_cancel; frame_tac. Qed.
Lemma frame_task_return r : frame (task_return r).
Proof. unfold task_return, grp_cancel; frame_tac. Qed.
Lemma frame_set_tasks s t : frame (set_tasks s t).
Proof. unfold set_tasks; frame_tac. Qed.
Lemma frame_set_watcher x : frame (set_watcher x).
Proof. unfold set_watcher; frame_tac. Qed.
Lemma frame_set_chan x : frame (set_chan x).
Proof. unfold set_chan; frame_tac. Qed.
Lemma frame_set_main x : frame (set_main x).
Proof. unfold set_main; frame_tac. Qed.
Lemma frame_after_register : frame after_register.
Proof. unfold after_register; frame_tac. Qed.
Lemma frame_run_start a : frame (run_start a).
Proof. unfold run_start, after_register; frame_tac. Qed.

Lemma inst_intact_frame f i w : frame f -> inst_intact i w -> inst_intact i (f w).
Proof. intros Hf [H1 H2]; unfold inst_intact; destruct (Hf w) as [-> ->]; split; auto. Qed.

Lemma inst_intact_add i w c : inst_intact i w -> call_ok i c -> inst_intact i (add_trace c w).
Proof. intros [H1 H2] Hc; split; simpl; auto. Qed.

Lemma inst_intact_Stop a dr i w : inst_intact i w -> inst_intact i (snd (Stop a dr w)).
Proof.
  intro H; pose proof H as [Hi _].
  unfold Stop; destruct (opt_registry (app_opts a)); [destruct dr|];
    simpl; try destruct (app_cancel a); simpl;
    repeat first [ apply inst_intact_frame; [apply frame_cancel_ctx|]
                 | apply inst_intact_add; [|simpl; auto] ]; auto.
Qed.

Create HintDb lifecycle.

#[export] Hint Resolve frame_cancel_ctx frame_grp_cancel frame_task_return frame_set_tasks
  frame_set_watcher frame_set_chan frame_set_main frame_after_register frame_run_start
  inst_intact_Stop : lifecycle.

Lemma step_inst_intact a w ev w' i :
  inst_intact i w -> step a w ev = Some w' -> inst_intact i w'.
Proof.
  intros H Hs; pose proof H as [Hi _].
  destruct ev; simpl in Hs;
    repeat match type of Hs with
           | context [match ?x with _ => _ end] => destruct x
           end; try discriminate; injection Hs as <-;
    repeat first [ apply inst_intact_Stop
                 | apply inst_intact_frame; [solve [auto with lifecycle]|]
                 | apply inst_intact_add; [|simpl; auto] ]; auto.
Qed.

Lemma run_sched_inst_intact a w evs w' i :
  inst_intact i w -> run_sched a w evs = Some w' -> inst_intact i w'.
Proof.
  revert w; induction evs as [|ev rest IH]; intros w H Hr; simpl in Hr.
  - injection Hr as <-; exact H.
  - destruct (step a w ev) as [w1|] eqn:E; [|discriminate].
    exact (IH w1 (step_inst_intact a w ev w1 i H E) Hr).
Qed.

(** C7: along every schedule of [Run] and [Stop] calls, the instance cell
    keeps the value [New] built, and every [Register]/[Deregister] call is
    made with that value. *)
Theorem instance_never_mutated (a : App) (evs : list Event) (w : World)
    (Hrun : run_sched a (world0 a) evs = Some w) :
  w_inst w = app_instance a /\
  forall c, In c (w_trace w) -> call_ok (app_instance a) c.
Proof.
  destruct (run_sched_inst_intact a (world0 a) evs w (app_instance a)
              (conj eq_refl (Forall_nil _)) Hrun) as [H1 H2].
  split; [exact H1|]; intros c Hc; exact (proj1 (Forall_forall _ _) H2 c Hc).
Qed.

Lemma instance_never_mutated_witness :
  w_inst (run_or appB schedB) = app_instance appB.
Proof.
  exact (proj1 (instance_never_mutated appB schedB (run_or appB schedB)
                  ltac:(vm_compute; reflexivity))).
Defined.

(** ** Fail-fast join *)

Lemma length_upd {A} (l : list A) i x : length (upd l i x) = length l.
Proof. revert i; induction l as [|h t IH]; intros [|i]; simpl; auto. Qed.

Lemma nth_error_upd_same {A} (l : list A) i x :
  i < length l -> nth_error (upd l i x) i = Some x.
Proof.
  revert i; induction l as [|h t IH]; intros [|i] H; simpl in *; try lia; auto.
  apply IH; lia.
Qed.

Lemma nth_error_upd_other {A} (l : list A) i j x :
  i <> j -> nth_error (upd l i x) j = nth_error l j.
Proof.
  revert i j; induction l as [|h t IH]; intros [|i] [|j] H; simpl; auto; try lia.
Qed.

Lemma nth_error_repeat_running n i : nth_error (repeat TRunning n) i <> Some TDone.
Proof. revert i; induction n as [|n IH]; intros [|i]; simpl; try discriminate; auto. Qed.

Lemma all_done_stop w i : all_done w = true -> nth_error (w_stop_tasks w) i <> Some TRunning.
Proof.
  unfold all_done; intros H Hi; apply andb_true_iff in H as [H _].
  apply nth_error_In in Hi.
  pose proof (proj1 (forallb_forall _ _) H TRunning (in_or_app _ _ _ (or_introl Hi))).
  discriminate.
Qed.

Lemma all_done_start w i : all_done w = true -> nth_error (w_start_tasks w) i <> Some TRunning.
Proof.
  unfold all_done; intros H Hi; apply andb_true_iff in H as [H _].
  apply nth_error_In in Hi.
  pose proof (proj1 (forallb_forall _ _) H TRunning (in_or_app _ _ _ (or_intror Hi))).
  discriminate.
Qed.

Lemma all_done_watcher w : all_done w = true -> w_watcher w = WDone.
Proof.
  unfold all_done; intro H; apply andb_true_iff in H as [_ H].
  destruct (w_watcher w); congruence.
Qed.

Lemma all_done_stop_index w i :
  all_done w = true -> i < length (w_stop_tasks w) -> nth_error (w_stop_tasks w) i = Some TDone.
Proof.
  intros H Hi; destruct (nth_error (w_stop_tasks w) i) as [[]|] eqn:E.
  - exfalso; exact (all_done_stop w i H E).
  - reflexivity.
  - apply nth_error_None in E; lia.
Qed.

(** Steps that leave the group, the goroutines and the main thread alone. *)
Definition calm (w w' : World) : Prop :=
  w_grp w' = w_grp w /\ w_stop_tasks w' = w_stop_tasks w /\
  w_start_tasks w' = w_start_tasks w /\ w_watcher w' = w_watcher w /\
  w_main w' = w_main w /\ (forall c, In c (w_trace w) -> In c (w_trace w')) /\
  (w_gerr w <> None -> w_gerr w' <> None).

Lemma calm_trans w1 w2 w3 : calm w1 w2 -> calm w2 w3 -> calm w1 w3.
Proof.
  intros (A1 & B1 & C1 & D1 & E1 & F1 & G1) (A2 & B2 & C2 & D2 & E2 & F2 & G2).
  repeat split; try congruence; auto.
Qed.

Lemma calm_refl w : calm w w.
Proof. unfold calm; intuition. Qed.

Lemma calm_add_trace c w : calm w (add_trace c w).
Proof. unfold calm; simpl; intuition. Qed.

Lemma calm_set_chan c w : calm w (set_chan c w).
Proof. unfold calm; simpl; intuition. Qed.

Lemma calm_cancel_ctx e w : calm w (cancel_ctx e w).
Proof.
  unfold calm, cancel_ctx; destruct (w_aerr w); [apply calm_refl|].
  simpl; destruct (w_gerr w); intuition discriminate.
Qed.

Ltac calm_chain :=
  match goal with
  | |- calm ?w ?w => apply calm_refl
  | |- calm ?w (add_trace ?c ?w') =>
      apply (calm_trans w w' (add_trace c w')); [calm_chain | apply calm_add_trace]
  | |- calm ?w (cancel_ctx ?e ?w') =>
      apply (calm_trans w w' (cancel_ctx e w')); [calm_chain | apply calm_cancel_ctx]
  | |- calm ?w (set_chan ?c ?w') =>
      apply (calm_trans w w' (set_chan c w')); [calm_chain | apply calm_set_chan]
  end.

Lemma calm_Stop a dr w : calm w (snd (Stop a dr w)).
Proof.
  unfold Stop; destruct (opt_registry (app_opts a)); [destruct dr|];
    simpl; try destruct (app_cancel a); simpl; calm_chain.
Qed.

Lemma task_return_fields r w :
  w_stop_tasks (task_return r w) = w_stop_tasks w /\
  w_start_tasks (task_return r w) = w_start_tasks w /\
  w_watcher (task_return r w) = w_watcher w /\
  w_main (task_return r w) = w_main w /\
  w_trace (task_return r w) = w_trace w /\
  ((w_grp w <> None -> w_gerr w <> None) ->
   w_grp (task_return r w) <> None -> w_gerr (task_return r w) <> None) /\
  (w_grp w <> None -> w_grp (task_return r w) = w_grp w).
Proof.
  unfold task_return, grp_cancel; destruct r, (w_grp w) eqn:E; simpl;
    repeat split; auto; try congruence;
    try (destruct (w_gerr w); discriminate);
    intros H _; apply H; discriminate.
Qed.

(** Invariant of the schedules of [Run]. *)
Definition ff_inv (a : App) (w : World) : Prop :=
  (w_main w <> MIdle -> length (w_stop_tasks w) = length (opt_servers (app_opts a))) /\
  (forall i, nth_error (w_stop_tasks w) i = Some TDone -> exists r, In (TStop i r) (w_trace w)) /\
  (w_grp w <> None -> w_gerr w <> None) /\
  (w_main w = MRegister -> w_watcher w = WNotSpawned) /\
  (forall r, w_main w = MReturned r -> w_watcher w <> WNotSpawned ->
     r = wait_result (w_grp w) /\ all_done w = true).

Lemma ff_inv_world0 a : ff_inv a (world0 a).
Proof.
  unfold ff_inv; simpl; split; [congruence|]; split; [intros [|i] Hi; discriminate|].
  repeat split; congruence.
Qed.

Lemma ff_inv_calm a w w' : ff_inv a w -> calm w w' -> ff_inv a w'.
Proof.
  intros (I1 & I2 & I3 & I4 & I5) (A & B & C & D & E & F & G).
  assert (Hd : all_done w' = all_done w) by (unfold all_done; rewrite B, C, D; reflexivity).
  unfold ff_inv; rewrite A, B, D, E, Hd.
  split; [exact I1|]; split; [|split; [|split; [exact I4|]]].
  - intros i Hi; destruct (I2 i Hi) as [r Hr]; eauto.
  - intro Hg; apply G, I3; exact Hg.
  - intros r Hm Hw; apply I5; auto.
Qed.

Lemma ff_inv_step a w ev w' : ff_inv a w -> step a w ev = Some w' -> ff_inv a w'.
Proof.
  intros Inv Hs; pose proof Inv as (I1 & I2 & I3 & I4 & I5).
  destruct ev as [| i r | i r | r | s | dr | | dr | dl | ]; cbv beta iota delta [step] in Hs.
  - (* Run *)
    destruct (w_main w); try discriminate; injection Hs as <-.
    unfold run_start; destruct (opt_registry (app_opts a)); unfold ff_inv; simpl;
      (split; [intros _; apply repeat_length|]);
      (split; [intros j Hj; exfalso; exact (nth_error_repeat_running _ _ Hj)|]);
      (split; [intros H; exfalso; apply H; reflexivity|]);
      split; intros; try discriminate; auto.
  - (* a start-task returns *)
    destruct (nth_error (w_start_tasks w) i) as [[|]|] eqn:Ei; try discriminate.
    injection Hs as <-.
    destruct (task_return_fields r (add_trace (TStart i r)
               (set_tasks (w_stop_tasks w) (upd (w_start_tasks w) i TDone) w)))
      as (F1 & F2 & F3 & F4 & F5 & F6 & F7).
    unfold ff_inv; rewrite F1, F3, F4, F5; simpl.
    split; [exact I1|]; split; [|split; [apply F6; exact I3|]; split; [exact I4|]].
    + intros j Hj; destruct (I2 j Hj) as [r' Hr']; exists r'; right; exact Hr'.
    + intros r0 Hm Hw; exfalso; destruct (I5 r0 Hm Hw) as [_ Hd].
      exact (all_done_start w i Hd Ei).
  - (* a stop-task returns *)
    destruct (nth_error (w_stop_tasks w) i) as [[|]|] eqn:Ei; try discriminate;
      destruct (w_gerr w) eqn:Eg; try discriminate.
    injection Hs as <-.
    destruct (task_return_fields r (add_trace (TStop i r)
               (set_tasks (upd (w_stop_tasks w) i TDone) (w_start_tasks w) w)))
      as (F1 & F2 & F3 & F4 & F5 & F6 & F7).
    unfold ff_inv; rewrite F1, F3, F4, F5; simpl.
    split; [rewrite length_upd; exact I1|].
    split; [|split; [apply F6; simpl; rewrite Eg; discriminate|]; split; [exact I4|]].
    + intros j Hj; destruct (Nat.eq_dec i j) as [<-|Hne].
      * exists r; left; reflexivity.
      * rewrite nth_error_upd_other in Hj by exact Hne.
        destruct (I2 j Hj) as [r' Hr']; exists r'; right; exact Hr'.
    + intros r0 Hm Hw; exfalso; destruct (I5 r0 Hm Hw) as [_ Hd].
      exact (all_done_stop w i Hd Ei).
  - (* Register returns *)
    destruct (w_main w) eqn:Em; try discriminate.
    destruct r as [e|]; injection Hs as <-; unfold ff_inv; simpl.
    + split; [intros _; apply I1; discriminate|].
      split; [intros j Hj; destruct (I2 j Hj) as [r' Hr']; exists r'; right; exact Hr'|].
      split; [exact I3|]; split; [discriminate|].
      intros r0 _ Hw; exfalso; apply Hw, I4; reflexivity.
    + split; [intros _; apply I1; discriminate|].
      split; [intros j Hj; destruct (I2 j Hj) as [r' Hr']; exists r'; right; exact Hr'|].
      split; [exact I3|]; split; discriminate.
  - (* a signal is delivered *)
    destruct (w_notified w && existsb (signal_eqb s) (opt_sigs (app_opts a))); [|discriminate].
    destruct (w_chan w); injection Hs as <-; [exact Inv|].
    exact (ff_inv_calm a w _ Inv (calm_set_chan _ w)).
  - (* the watcher takes a signal *)
    destruct (w_watcher w), (w_chan w); try discriminate; injection Hs as <-.
    apply (ff_inv_calm a w _ Inv).
    eapply calm_trans; [apply calm_set_chan | apply calm_Stop].
  - (* the watcher returns *)
    destruct (w_watcher w) eqn:Ew; try discriminate;
      destruct (w_gerr w) as [e|] eqn:Eg; try discriminate.
    assert (Hw' : w' = task_return (Some e) (set_watcher WDone w)) by congruence; subst w'.
    destruct (task_return_fields (Some e) (set_watcher WDone w))
      as (F1 & F2 & F3 & F4 & F5 & F6 & F7).
    unfold ff_inv; rewrite F1, F3, F4, F5; simpl.
    split; [exact I1|]; split; [exact I2|].
    split; [apply F6; simpl; rewrite Eg; discriminate|].
    split; [intro Hm; specialize (I4 Hm); discriminate|].
    intros r0 Hm _; exfalso; destruct (I5 r0 Hm) as [_ Hd]; [discriminate|].
    pose proof (all_done_watcher w Hd) as Hwd; rewrite Ew in Hwd; discriminate.
  - (* an external Stop *)
    injection Hs as <-; exact (ff_inv_calm a w _ Inv (calm_Stop a dr w)).
  - (* the parent context is done *)
    injection Hs as <-; exact (ff_inv_calm a w _ Inv (calm_cancel_ctx _ w)).
  - (* g.Wait() returns *)
    destruct (w_main w) eqn:Em; try discriminate.
    destruct (all_done w) eqn:Ed; try discriminate; injection Hs as <-.
    assert (Hd : all_done (set_main (MReturned (wait_result (w_grp w))) (grp_cancel w)) = all_done w)
      by reflexivity.
    unfold ff_inv; rewrite Hd; simpl.
    split; [intros _; apply I1; discriminate|].
    split; [exact I2|].
    split; [intros _; destruct (w_gerr w); discriminate|].
    split; [discriminate|].
    intros r0 Hm _; injection Hm as <-; auto.
Qed.

Lemma ff_inv_run_sched a w evs w' : ff_inv a w -> run_sched a w evs = Some w' -> ff_inv a w'.
Proof.
  revert w; induction evs as [|ev rest IH]; intros w H Hr; simpl in Hr.
  - injection Hr as <-; exact H.
  - destruct (step a w ev) as [w1|] eqn:E; [|discriminate].
    exact (IH w1 (ff_inv_step a w ev w1 H E) Hr).
Qed.

(** The first server failure (a Start or Stop error that is not a
    cancellation), in chronological order of the calls. *)
Fixpoint first_failure (chrono : list Call) : option error :=
  match chrono with
  | [] => None
  | TStart _ (Some e) :: rest | TStop _ (Some e) :: rest =>
      if errors_is e Canceled then first_failure rest else Some e
  | _ :: rest => first_failure rest
  end.

(** The fail-fast property read literally: whenever [Run] has returned and
    some server failed, [Run] returned the first server failure after every
    server's [Stop] was called. *)
Definition fail_fast_as_stated (a : App) : Prop :=
  forall evs w r E,
    run_sched a (world0 a) evs = Some w -> w_main w = MReturned r ->
    first_failure (rev (w_trace w)) = Some E ->
    r = Some E /\
    (forall i, i < length (opt_servers (app_opts a)) -> exists r', In (TStop i r') (w_trace w)).

Definition appR : App :=
  New uuid_ok [with_servers [srv_ok 1; srv_ok 2]; with_registry (mkRegistry 5)].
Definition schedR : list Event :=
  [EvRun; EvStartReturn 1 (Some (Failure 2)); EvRegisterReturn (Some (Failure 7))].

Definition appG : App := New uuid_ok [with_servers [srv_ok 1]].
Definition schedG : list Event :=
  [EvRun; EvSignal SIGTERM; EvWatcherSignal None; EvWatcherDone;
   EvStopTask 0 (Some (Failure 5)); EvStartReturn 0 None; EvWaitReturn].

(** C6, as amended: when [Run] returns from [g.Wait()] (registration, if
    any, succeeded) and the first error recorded by the group is a real
    failure [E], then the group's context was cancelled, every server's
    [Stop] was called, and [Run] returns [E]. *)
Theorem Run_fail_fast (a : App) (evs : list Event) (w : World) (r : option error) (E : error)
    (Hrun : run_sched a (world0 a) evs = Some w)
    (Hret : w_main w = MReturned r)
    (Hwatch : w_watcher w <> WNotSpawned)
    (Hgrp : w_grp w = Some E)
    (Hreal : errors_is E Canceled = false) :
  r = Some E /\ w_gerr w <> None /\
  (forall i, i < length (opt_servers (app_opts a)) -> exists r', In (TStop i r') (w_trace w)).
Proof.
  destruct (ff_inv_run_sched a (world0 a) evs w (ff_inv_world0 a) Hrun)
    as (I1 & I2 & I3 & I4 & I5).
  destruct (I5 r Hret Hwatch) as [Hr Hd].
  split; [rewrite Hr, Hgrp; unfold wait_result; rewrite Hreal; reflexivity|].
  split; [apply I3; rewrite Hgrp; discriminate|].
  intros i Hi; apply I2, all_done_stop_index; [exact Hd|].
  rewrite I1; [exact Hi | rewrite Hret; discriminate].
Qed.

Lemma Run_fail_fast_witness :
  w_gerr (run_or appA schedA) <> None.
Proof.
  exact (proj1 (proj2 (Run_fail_fast appA schedA (run_or appA schedA) (Some (Failure 2))
                         (Failure 2)
                         ltac:(vm_compute; reflexivity) ltac:(vm_compute; reflexivity)
                         ltac:(vm_compute; discriminate) ltac:(vm_compute; reflexivity)
                         ltac:(vm_compute; reflexivity)))).
Defined.

(** C6 as stated fails twice: (1) with a registry, a server fails and then
    [Register] fails: [Run] returns the register error without waiting;
    (2) without a registry, a signal stops the App, the watcher records
    context.Canceled first and a server's [Stop] then fails: [Run] returns
    nil. *)
Lemma Run_fail_fast_counterexample :
  ~ fail_fast_as_stated appR /\ ~ fail_fast_as_stated appG.
Proof.
  split; intro H.
  - destruct (H schedR (run_or appR schedR) (Some (Failure 7)) (Failure 2)
                ltac:(vm_compute; reflexivity) ltac:(vm_compute; reflexivity)
                ltac:(vm_compute; reflexivity)) as [H1 _].
    discriminate.
  - destruct (H schedG (run_or appG schedG) None (Failure 5)
                ltac:(vm_compute; reflexivity) ltac:(vm_compute; reflexivity)
                ltac:(vm_compute; reflexivity)) as [H1 _].
    discriminate.
Qed.

(** ** The signal watcher *)

Definition count_signals (evs : list Event) : nat :=
  length (filter (fun ev => match ev with EvSignal _ => true | _ => false end) evs).

Definition count_stops (tr : list Call) : nat :=
  length (filter (fun c => match c with TAppStop => true | _ => false end) tr).

(** The watcher read literally: with no other caller of [Stop], every
    signal that arrives during a run that has returned led to a [Stop]. *)
Definition every_signal_stops (a : App) : Prop :=
  forall evs w r,
    run_sched a (world0 a) evs = Some w -> w_main w = MReturned r ->
    (forall dr, ~ In (EvStop dr) evs) ->
    count_signals evs <= count_stops (w_trace w).

Definition schedS : list Event :=
  [EvRun; EvSignal SIGTERM; EvSignal SIGINT; EvWatcherSignal None; EvWatcherDone;
   EvStopTask 0 None; EvStartReturn 0 None; EvWaitReturn].

Lemma signal_eqb_refl s : signal_eqb s s = true.
Proof. destruct s; reflexivity. Qed.

Lemma existsb_signal s sigs : In s sigs -> existsb (signal_eqb s) sigs = true.
Proof. intro H; apply existsb_exists; exists s; split; [exact H | apply signal_eqb_refl]. Qed.

Lemma cancel_ctx_chan e w : w_chan (cancel_ctx e w) = w_chan w.
Proof. unfold cancel_ctx; destruct (w_aerr w); reflexivity. Qed.

Lemma Stop_calls_TAppStop a dr w : In TAppStop (w_trace (snd (Stop a dr w))).
Proof.
  unfold Stop; destruct (opt_registry (app_opts a)); [destruct dr|]; simpl;
    try destruct (app_cancel a); simpl; try rewrite cancel_ctx_trace; simpl; auto.
Qed.

(** C8, as amended: the watcher loops over a one-slot channel.  A
    configured signal delivered while the slot is empty fills it; one
    delivered while it is full is dropped.  Each signal taken from the
    channel calls [Stop], whose error is discarded (the group and the main
    thread are untouched) and the loop keeps waiting.  Once the group
    context is done the loop may exit, reporting [ctx.Err()]; it cannot
    exit before. *)
Theorem signal_watcher_loop (a : App) (w : World) :
  (forall s s', w_notified w = true -> In s (opt_sigs (app_opts a)) -> w_chan w = Some s' ->
     step a w (EvSignal s) = Some w) /\
  (forall s, w_notified w = true -> In s (opt_sigs (app_opts a)) -> w_chan w = None ->
     step a w (EvSignal s) = Some (set_chan (Some s) w)) /\
  (forall s dr, w_watcher w = WLooping -> w_chan w = Some s ->
     let w' := snd (Stop a dr (set_chan None w)) in
     step a w (EvWatcherSignal dr) = Some w' /\
     w_watcher w' = WLooping /\ w_chan w' = None /\
     w_grp w' = w_grp w /\ w_main w' = w_main w /\ In TAppStop (w_trace w')) /\
  (forall e, w_watcher w = WLooping -> w_gerr w = Some e ->
     step a w EvWatcherDone = Some (task_return (Some e) (set_watcher WDone w))) /\
  (w_gerr w = None -> step a w EvWatcherDone = None).
Proof.
  split; [|split; [|split; [|split]]].
  - intros s s' Hn Hs Hc; cbv beta iota delta [step];
      rewrite Hn, existsb_signal by exact Hs; simpl; rewrite Hc; reflexivity.
  - intros s Hn Hs Hc; cbv beta iota delta [step];
      rewrite Hn, existsb_signal by exact Hs; simpl; rewrite Hc; reflexivity.
  - intros s dr Hw Hc; cbv zeta; cbv beta iota delta [step]; rewrite Hw, Hc.
    destruct (calm_Stop a dr (set_chan None w)) as (A & _ & _ & D & E & _ & _).
    assert (Hch : w_chan (snd (Stop a dr (set_chan None w))) = None).
    { unfold Stop; destruct (opt_registry (app_opts a)); [destruct dr|]; simpl;
        try destruct (app_cancel a); simpl; try rewrite cancel_ctx_chan; reflexivity. }
    split; [reflexivity|]; split; [rewrite D; exact Hw|]; split; [exact Hch|].
    split; [exact A|]; split; [exact E|]; apply Stop_calls_TAppStop.
  - intros e Hw Hg; cbv beta iota delta [step]; rewrite Hw, Hg; reflexivity.
  - intros Hg; cbv beta iota delta [step]; rewrite Hg; destruct (w_watcher w); reflexivity.
Qed.

Lemma signal_watcher_loop_witness :
  step appG (run_or appG [EvRun; EvSignal SIGTERM]) (EvWatcherSignal None) =
  Some (snd (Stop appG None (set_chan None (run_or appG [EvRun; EvSignal SIGTERM])))).
Proof.
  exact (proj1 (proj1 (proj2 (proj2 (signal_watcher_loop appG (run_or appG [EvRun; EvSignal SIGTERM]))))
                  SIGTERM None ltac:(vm_compute; reflexivity) ltac:(vm_compute; reflexivity))).
Defined.

(** C8 as stated fails: two signals delivered before the watcher runs
    trigger a single [Stop]. *)
Lemma signal_watcher_counterexample : ~ every_signal_stops appG.
Proof.
  intro H.
  pose proof (H schedS (run_or appG schedS) None ltac:(vm_compute; reflexivity)
                ltac:(vm_compute; reflexivity)
                ltac:(intros dr Hin; simpl in Hin; intuition discriminate)) as Hc.
  vm_compute in Hc; lia.
Qed.

(** ** Further properties of Run and Stop *)

(** Calls made by the goroutines and the main thread of [Run]. *)
Definition is_run_call (c : Call) : bool :=
  match c with TStart _ _ | TStop _ _ | TRegister _ _ => true | _ => false end.

(** Calls to the registry. *)
Definition is_reg_call (c : Call) : bool :=
  match c with TRegister _ _ | TDeregister _ _ => true | _ => false end.

(** Calls of [Stop] on server [i]. *)
Definition is_stop_of (i : nat) (c : Call) : bool :=
  match c with TStop j _ => Nat.eqb i j | _ => false end.

Definition is_start_of (i : nat) (c : Call) : bool :=
  match c with TStart j _ => Nat.eqb i j | _ => false end.

Definition is_app_stop (c : Call) : bool :=
  match c with TAppStop => true | _ => false end.

Lemma Stop_trace_filter (f : Call -> bool) a dr w :
  f TAppStop = false -> f TCancel = false -> (forall j r, f (TDeregister j r) = false) ->
  filter f (w_trace (snd (Stop a dr w))) = filter f (w_trace w).
Proof.
  intros H1 H2 H3; unfold Stop; destruct (opt_registry (app_opts a)); [destruct dr|]; simpl;
    try destruct (app_cancel a); simpl; try rewrite cancel_ctx_trace; simpl;
    rewrite ?H1, ?H2, ?H3; reflexivity.
Qed.

Lemma Stop_trace_noreg (f : Call -> bool) a dr w :
  opt_registry (app_opts a) = None -> f TAppStop = false -> f TCancel = false ->
  filter f (w_trace (snd (Stop a dr w))) = filter f (w_trace w).
Proof.
  intros Hr H1 H2; unfold Stop; rewrite Hr; simpl;
    destruct (app_cancel a); simpl; try rewrite cancel_ctx_trace; simpl;
    rewrite ?H1, ?H2; reflexivity.
Qed.

Lemma Stop_count_app_stop a dr w :
  length (filter is_app_stop (w_trace (snd (Stop a dr w)))) =
  S (length (filter is_app_stop (w_trace w))).
Proof.
  unfold Stop; destruct (opt_registry (app_opts a)); [destruct dr|]; simpl;
    try destruct (app_cancel a); simpl; try rewrite cancel_ctx_trace; simpl; reflexivity.
Qed.

Lemma cancel_ctx_notified e w : w_notified (cancel_ctx e w) = w_notified w.
Proof. unfold cancel_ctx; destruct (w_aerr w); reflexivity. Qed.

(** [Stop] only touches the contexts and the call trace. *)
Lemma Stop_fields a dr w :
  let w' := snd (Stop a dr w) in
  w_grp w' = w_grp w /\ w_stop_tasks w' = w_stop_tasks w /\
  w_start_tasks w' = w_start_tasks w /\ w_watcher w' = w_watcher w /\
  w_main w' = w_main w /\ w_notified w' = w_notified w /\ w_chan w' = w_chan w.
Proof.
  destruct (calm_Stop a dr w) as (A & B & C & D & E & _ & _).
  repeat split; auto.
  all: unfold Stop; destruct (opt_registry (app_opts a)); try destruct dr; simpl;
    try destruct (app_cancel a); simpl;
    rewrite ?cancel_ctx_notified, ?cancel_ctx_chan; reflexivity.
Qed.

Lemma in_filter_true (f : Call -> bool) c l : f c = true -> In c l -> In c (filter f l).
Proof. intros Hf Hc; apply filter_In; auto. Qed.

Lemma in_filter_back (f : Call -> bool) c l : In c (filter f l) -> In c l.
Proof. intro H; apply filter_In in H; tauto. Qed.

Definition stop_done (l : list TaskSt) (i : nat) : bool :=
  match nth_error l i with Some TDone => true | _ => false end.

(** Invariant of schedules from [world0] (beside [ff_inv]). *)
Definition run_inv (a : App) (w : World) : Prop :=
  (w_main w = MIdle ->
     w_grp w = None /\ w_gerr w = w_aerr w /\ w_stop_tasks w = [] /\
     w_start_tasks w = [] /\ w_watcher w = WNotSpawned /\ w_notified w = false /\
     filter is_run_call (w_trace w) = []) /\
  (w_main w <> MIdle -> length (w_start_tasks w) = length (opt_servers (app_opts a))) /\
  (forall i, nth_error (w_start_tasks w) i = Some TDone -> exists r, In (TStart i r) (w_trace w)) /\
  (forall i, length (filter (is_stop_of i) (w_trace w)) =
             if stop_done (w_stop_tasks w) i then 1 else 0) /\
  (forall i r, In (TStop i r) (w_trace w) -> w_gerr w <> None) /\
  (forall e, w_main w = MReturned (Some e) ->
     (exists j, In (TRegister j (Some e)) (w_trace w)) \/
     (w_grp w = Some e /\ errors_is e Canceled = false)) /\
  (forall j e, In (TRegister j (Some e)) (w_trace w) ->
     w_main w = MReturned (Some e) /\ w_watcher w = WNotSpawned /\ w_notified w = false) /\
  (w_main w = MRegister -> w_notified w = false /\ opt_registry (app_opts a) <> None) /\
  (opt_registry (app_opts a) = None -> filter is_reg_call (w_trace w) = []).

(** Steps that change only the contexts and add calls of [Stop]. *)
Definition quiet (a : App) (w w' : World) : Prop :=
  w_grp w' = w_grp w /\ w_stop_tasks w' = w_stop_tasks w /\
  w_start_tasks w' = w_start_tasks w /\ w_watcher w' = w_watcher w /\
  w_main w' = w_main w /\ w_notified w' = w_notified w /\
  (w_gerr w <> None -> w_gerr w' <> None) /\
  (w_gerr w = w_aerr w -> w_gerr w' = w_aerr w') /\
  (forall c, In c (w_trace w) -> In c (w_trace w')) /\
  filter is_run_call (w_trace w') = filter is_run_call (w_trace w) /\
  (forall i, filter (is_stop_of i) (w_trace w') = filter (is_stop_of i) (w_trace w)) /\
  (opt_registry (app_opts a) = None ->
     filter is_reg_call (w_trace w') = filter is_reg_call (w_trace w)).

Lemma quiet_trans a w1 w2 w3 : quiet a w1 w2 -> quiet a w2 w3 -> quiet a w1 w3.
Proof.
  intros (A1 & B1 & C1 & D1 & E1 & F1 & G1 & H1 & I1 & J1 & K1 & L1)
         (A2 & B2 & C2 & D2 & E2 & F2 & G2 & H2 & I2 & J2 & K2 & L2).
  unfold quiet; repeat split; try congruence; auto;
    try (intro i; rewrite K2, K1; reflexivity);
    try (intro Hr; rewrite (L2 Hr), (L1 Hr); reflexivity).
Qed.

Lemma quiet_cancel_ctx a e w : quiet a w (cancel_ctx e w).
Proof.
  unfold quiet, cancel_ctx; destruct (w_aerr w) eqn:Ea; simpl.
  - repeat split; auto; congruence.
  - destruct (w_gerr w); repeat split; auto; try discriminate.
Qed.

Lemma quiet_set_chan a c w : quiet a w (set_chan c w).
Proof. unfold quiet; simpl; repeat split; auto. Qed.

Lemma quiet_refl a w : quiet a w w.
Proof. unfold quiet; repeat split; auto. Qed.

Lemma quiet_add_trace a c w :
  is_run_call c = false -> (forall i, is_stop_of i c = false) ->
  (opt_registry (app_opts a) = None -> is_reg_call c = false) ->
  quiet a w (add_trace c w).
Proof.
  intros H1 H2 H3; unfold quiet; simpl; rewrite H1.
  repeat split; auto; try (intro i; rewrite H2; reflexivity).
  intro Hr; rewrite (H3 Hr); reflexivity.
Qed.

Ltac quiet_chain :=
  match goal with
  | |- quiet ?a ?w ?w => apply quiet_refl
  | |- quiet ?a ?w (add_trace ?c ?w') =>
      apply (quiet_trans a w w' (add_trace c w'));
      [quiet_chain | apply quiet_add_trace; [reflexivity | intro; reflexivity | ]]
  | |- quiet ?a ?w (cancel_ctx ?e ?w') =>
      apply (quiet_trans a w w' (cancel_ctx e w')); [quiet_chain | apply quiet_cancel_ctx]
  end.

Lemma quiet_Stop a dr w : quiet a w (snd (Stop a dr w)).
Proof.
  unfold Stop; destruct (opt_registry (app_opts a)) eqn:Er; try destruct dr; simpl;
    try destruct (app_cancel a); simpl; quiet_chain;
    try (intro H; rewrite Er in H; discriminate); reflexivity.
Qed.

Lemma in_run_call_back a w w' c :
  quiet a w w' -> is_run_call c = true -> In c (w_trace w') -> In c (w_trace w).
Proof.
  intros (_ & _ & _ & _ & _ & _ & _ & _ & _ & J & _ & _) Hc Hin.
  apply (in_filter_back is_run_call); rewrite <- J; apply in_filter_true; auto.
Qed.

Lemma run_inv_quiet a w w' : run_inv a w -> quiet a w w' -> run_inv a w'.
Proof.
  intros Inv Q; pose proof Q as (A & B & C & D & E & F & G & H & I & J & K & L).
  destruct Inv as (R1 & R2 & R3 & R4 & R5 & R6 & R7 & R8 & R9).
  unfold run_inv; rewrite A, B, C, D, E, F.
  split; [|split; [exact R2|]].
  { intro Hm; destruct (R1 Hm) as (X1 & X2 & X3 & X4 & X5 & X6 & X7).
    repeat split; auto; rewrite J; exact X7. }
  split; [intros i Hi; destruct (R3 i Hi) as [r Hr]; exists r; auto|].
  split; [intro i; rewrite K; apply R4|].
  split; [intros i r Hin; apply G, (R5 i r), (in_run_call_back a w w'); auto|].
  split; [intros e Hm; destruct (R6 e Hm) as [[j Hj]|Hg]; [left; exists j; auto | right; exact Hg]|].
  split; [intros j e Hin; apply (R7 j e), (in_run_call_back a w w'); auto|].
  split; [exact R8|].
  intro Hr; rewrite (L Hr); exact (R9 Hr).
Qed.

Lemma run_inv_world0 a : run_inv a (world0 a).
Proof.
  unfold run_inv; simpl.
  split; [intros _; repeat split; reflexivity|].
  split; [intro H; contradiction H; reflexivity|].
  split; [intros i Hi; destruct i; discriminate|].
  split; [intro i; destruct i; reflexivity|].
  split; [intros i r []|].
  split; [intros e Hm; discriminate|].
  split; [intros j e []|].
  split; [discriminate|].
  intros _; reflexivity.
Qed.

Lemma task_return_gerr r w : w_gerr w <> None -> w_gerr (task_return r w) <> None.
Proof.
  unfold task_return, grp_cancel; destruct r, (w_grp w); simpl; auto.
  destruct (w_gerr w); auto.
Qed.

Lemma task_return_notified r w : w_notified (task_return r w) = w_notified w.
Proof. unfold task_return, grp_cancel; destruct r, (w_grp w); reflexivity. Qed.

Lemma wait_result_some g e :
  wait_result g = Some e -> g = Some e /\ errors_is e Canceled = false.
Proof.
  unfold wait_result; destruct g as [e'|]; [|discriminate].
  destruct (errors_is e' Canceled) eqn:E; simpl; [discriminate|].
  intro H; injection H as <-; auto.
Qed.

Lemma filter_nil_sub (f g : Call -> bool) l :
  (forall c, f c = true -> g c = true) -> filter g l = [] -> filter f l = [].
Proof.
  intros Hfg; induction l as [|c l IH]; simpl; auto.
  destruct (g c) eqn:Eg; [discriminate|].
  destruct (f c) eqn:Ef; [rewrite (Hfg c Ef) in Eg; discriminate|]; exact IH.
Qed.

Lemma not_in_nil_filter (f : Call -> bool) c l : f c = true -> filter f l = [] -> ~ In c l.
Proof. intros Hf Hn Hin; pose proof (in_filter_true f c l Hf Hin) as H; rewrite Hn in H; exact H. Qed.

Lemma run_inv_step a w ev w' :
  run_inv a w -> ff_inv a w -> step a w ev = Some w' -> run_inv a w'.
Proof.
  intros Inv FF Hs; pose proof Inv as (R1 & R2 & R3 & R4 & R5 & R6 & R7 & R8 & R9).
  pose proof FF as (_ & _ & _ & I4 & I5).
  destruct ev as [| i r | i r | r | s | dr | | dr | dl | ]; cbv beta iota delta [step] in Hs.
  - (* Run *)
    destruct (w_main w) eqn:Em; try discriminate; injection Hs as <-.
    destruct (R1 eq_refl) as (X1 & X2 & X3 & X4 & X5 & X6 & X7).
    assert (Hno : forall i, filter (is_stop_of i) (w_trace w) = []).
    { intro i; apply (filter_nil_sub _ is_run_call); [|exact X7].
      intros [] Hc; simpl in Hc; auto; discriminate. }
    unfold run_start; destruct (opt_registry (app_opts a)) eqn:Er; unfold run_inv; simpl;
      (split; [discriminate|]);
      (split; [intros _; apply repeat_length|]);
      (split; [intros j Hj; exfalso; exact (nth_error_repeat_running _ _ Hj)|]);
      (split; [intro j; rewrite Hno; unfold stop_done;
               destruct (nth_error (repeat TRunning _) j) as [[]|] eqn:Ej;
               [reflexivity | exfalso; exact (nth_error_repeat_running _ _ Ej) | reflexivity]|]);
      (split; [intros j r0 Hin; exfalso;
               exact (not_in_nil_filter is_run_call (TStop j r0) _ eq_refl X7 Hin)|]);
      (split; [discriminate|]);
      (split; [intros j e Hin; exfalso;
               exact (not_in_nil_filter is_run_call (TRegister j (Some e)) _ eq_refl X7 Hin)|]);
      (split; [intros Hm; first [discriminate | split; [exact X6 | congruence]]|]);
      rewrite Er; exact R9.
  - (* a start-task returns *)
    destruct (nth_error (w_start_tasks w) i) as [[|]|] eqn:Ei; try discriminate.
    injection Hs as <-.
    assert (Hm0 : w_main w <> MIdle).
    { intro Hm; destruct (R1 Hm) as (_ & _ & _ & X4 & _); rewrite X4 in Ei; destruct i; discriminate. }
    set (w1 := add_trace (TStart i r) (set_tasks (w_stop_tasks w) (upd (w_start_tasks w) i TDone) w)).
    destruct (task_return_fields r w1) as (F1 & F2 & F3 & F4 & F5 & F6 & F7).
    pose proof (task_return_notified r w1) as F8.
    pose proof (task_return_gerr r w1) as F9.
    unfold run_inv; rewrite F1, F2, F3, F4, F5, F8; unfold w1 in *; simpl in *.
    split; [intro Hm; contradiction|].
    split; [intros _; rewrite length_upd; auto|].
    split; [intros j Hj; destruct (Nat.eq_dec i j) as [<-|Hne];
            [exists r; left; reflexivity
            | rewrite nth_error_upd_other in Hj by exact Hne;
              destruct (R3 j Hj) as [r' Hr']; exists r'; right; exact Hr']|].
    split; [intro j; apply R4|].
    split; [intros j r0 [Hin|Hin]; [discriminate | apply F9, (R5 j r0 Hin)]|].
    split; [intros e Hm; destruct (R6 e Hm) as [[j Hj]|[Hg He]];
            [left; exists j; right; exact Hj | right; split; [rewrite F7; [exact Hg | congruence] | exact He]]|].
    split; [intros j e [Hin|Hin]; [discriminate | apply (R7 j e Hin)]|].
    split; [exact R8|].
    exact R9.
  - (* a stop-task returns *)
    destruct (nth_error (w_stop_tasks w) i) as [[|]|] eqn:Ei; try discriminate;
      destruct (w_gerr w) as [ge|] eqn:Eg; try discriminate.
    injection Hs as <-.
    assert (Hm0 : w_main w <> MIdle).
    { intro Hm; destruct (R1 Hm) as (_ & _ & X3 & _); rewrite X3 in Ei; destruct i; discriminate. }
    assert (Hlt : i < length (w_stop_tasks w)).
    { apply nth_error_Some; rewrite Ei; discriminate. }
    set (w1 := add_trace (TStop i r) (set_tasks (upd (w_stop_tasks w) i TDone) (w_start_tasks w) w)).
    destruct (task_return_fields r w1) as (F1 & F2 & F3 & F4 & F5 & F6 & F7).
    pose proof (task_return_notified r w1) as F8.
    pose proof (task_return_gerr r w1) as F9.
    unfold run_inv; rewrite F1, F2, F3, F4, F5, F8; unfold w1 in *; simpl in *.
    split; [intro Hm; contradiction|].
    split; [exact R2|].
    split; [intros j Hj; destruct (R3 j Hj) as [r' Hr']; exists r'; right; exact Hr'|].
    split.
    { intro j; destruct (Nat.eq_dec i j) as [<-|Hne].
      - rewrite Nat.eqb_refl; simpl; rewrite R4; unfold stop_done;
          rewrite Ei, nth_error_upd_same by exact Hlt; reflexivity.
      - assert (Hb : (j =? i) = false) by (apply Nat.eqb_neq; congruence).
        rewrite Hb, R4; unfold stop_done; rewrite nth_error_upd_other by exact Hne;
          reflexivity. }
    split; [intros j r0 _; apply F9; rewrite Eg; discriminate|].
    split; [intros e Hm; destruct (R6 e Hm) as [[j Hj]|[Hg He]];
            [left; exists j; right; exact Hj | right; split; [rewrite F7; [exact Hg | congruence] | exact He]]|].
    split; [intros j e [Hin|Hin]; [discriminate | apply (R7 j e Hin)]|].
    split; [exact R8|].
    exact R9.
  - (* Register returns *)
    destruct (w_main w) eqn:Em; try discriminate.
    destruct (R8 ltac:(first [reflexivity | exact Em])) as [Hn Hreg].
    pose proof (I4 ltac:(first [reflexivity | exact Em])) as Hw.
    destruct r as [e|]; injection Hs as <-; unfold run_inv; simpl.
    + split; [discriminate|].
      split; [intros _; apply R2; congruence|].
      split; [intros j Hj; destruct (R3 j Hj) as [r' Hr']; exists r'; right; exact Hr'|].
      split; [intro j; apply R4|].
      split; [intros j r0 [Hin|Hin]; [discriminate | exact (R5 j r0 Hin)]|].
      split; [intros e0 He0; injection He0 as <-; left; exists (w_inst w); left; reflexivity|].
      split; [intros j e0 [Hin|Hin];
              [injection Hin as _ <-; split; [reflexivity | split; assumption]
              | destruct (R7 j e0 Hin) as [Hm _]; congruence]|].
      split; [discriminate|].
      intro Hr; exfalso; exact (Hreg Hr).
    + split; [discriminate|].
      split; [intros _; apply R2; congruence|].
      split; [intros j Hj; destruct (R3 j Hj) as [r' Hr']; exists r'; right; exact Hr'|].
      split; [intro j; apply R4|].
      split; [intros j r0 [Hin|Hin]; [discriminate | exact (R5 j r0 Hin)]|].
      split; [discriminate|].
      split; [intros j e0 [Hin|Hin];
              [discriminate | destruct (R7 j e0 Hin) as [Hm _]; congruence]|].
      split; [discriminate|].
      intro Hr; exfalso; exact (Hreg Hr).
  - (* a signal arrives *)
    destruct (w_notified w && existsb (signal_eqb s) (opt_sigs (app_opts a))); [|discriminate].
    destruct (w_chan w); injection Hs as <-;
      [exact Inv | exact (run_inv_quiet a w _ Inv (quiet_set_chan a None w))].
  - (* the watcher receives from c and calls Stop *)
    destruct (w_watcher w), (w_chan w); try discriminate; injection Hs as <-.
    apply (run_inv_quiet a w _ Inv).
    eapply quiet_trans; [apply quiet_set_chan | apply quiet_Stop].
  - (* the watcher observes ctx.Done() *)
    destruct (w_watcher w) eqn:Ew, (w_gerr w) as [ge|] eqn:Eg; try discriminate.
    assert (Hw' : task_return (Some ge) (set_watcher WDone w) = w')
      by (injection Hs as Hs; exact Hs).
    subst w'.
    set (w1 := set_watcher WDone w).
    destruct (task_return_fields (Some ge) w1) as (F1 & F2 & F3 & F4 & F5 & F6 & F7).
    pose proof (task_return_notified (Some ge) w1) as F8.
    pose proof (task_return_gerr (Some ge) w1) as F9.
    unfold run_inv; rewrite F1, F2, F3, F4, F5, F8; unfold w1 in *; simpl in *.
    split; [intro Hm; destruct (R1 Hm) as (_ & _ & _ & _ & Hw & _); congruence|].
    split; [exact R2|].
    split; [exact R3|].
    split; [exact R4|].
    split; [intros j r0 _; apply F9; congruence|].
    split; [intros e Hm; destruct (R6 e Hm) as [[j Hj]|[Hg He]];
            [left; exists j; exact Hj | right; split; [rewrite F7; [exact Hg | congruence] | exact He]]|].
    split; [intros j e Hin; destruct (R7 j e Hin) as (_ & Hw & _); congruence|].
    split; [exact R8|].
    exact R9.
  - (* a caller invokes Stop *)
    injection Hs as <-; exact (run_inv_quiet a w _ Inv (quiet_Stop a dr w)).
  - (* the parent context is done *)
    injection Hs as <-; exact (run_inv_quiet a w _ Inv (quiet_cancel_ctx a _ w)).
  - (* g.Wait() returns *)
    destruct (w_main w) eqn:Em; try discriminate.
    destruct (all_done w); [|discriminate].
    injection Hs as <-; unfold run_inv; simpl.
    split; [discriminate|].
    split; [intros _; apply R2; congruence|].
    split; [exact R3|].
    split; [exact R4|].
    split; [intros j r0 _; destruct (w_gerr w); discriminate|].
    split; [intros e He; injection He as He; right; exact (wait_result_some _ _ He)|].
    split; [intros j e Hin; destruct (R7 j e Hin) as [Hm _]; congruence|].
    split; [discriminate|].
    exact R9.
Qed.

(** The errors a context reports: [context.Canceled] or
    [context.DeadlineExceeded]. *)
Definition ctx_err (e : error) : Prop := e = Canceled \/ e = DeadlineExceeded.

(** Where an error recorded by the group can come from: the watcher's
    [ctx.Err()], or a server's [Start] or [Stop]. *)
Definition origin (e : error) (w : World) : Prop :=
  ctx_err e \/
  exists i, In (TStart i (Some e)) (w_trace w) \/ In (TStop i (Some e)) (w_trace w).

Definition err_inv (w : World) : Prop :=
  (forall e, w_aerr w = Some e -> ctx_err e) /\
  (forall e, w_gerr w = Some e -> ctx_err e) /\
  (forall e, w_grp w = Some e -> origin e w) /\
  (w_watcher w = WDone -> w_gerr w <> None).

(** Steps that set the contexts only to context errors, record no new
    group error, keep the calls made and do not finish the watcher. *)
Definition err_step (w w' : World) : Prop :=
  (forall e, w_aerr w' = Some e -> w_aerr w = Some e \/ ctx_err e) /\
  (forall e, w_gerr w' = Some e -> w_gerr w = Some e \/ ctx_err e) /\
  (forall e, w_grp w' = Some e -> w_grp w = Some e) /\
  (forall c, In c (w_trace w) -> In c (w_trace w')) /\
  (w_watcher w' = WDone -> w_watcher w = WDone) /\
  (w_gerr w <> None -> w_gerr w' <> None).

Lemma err_step_trans w1 w2 w3 : err_step w1 w2 -> err_step w2 w3 -> err_step w1 w3.
Proof.
  intros (A1 & B1 & C1 & D1 & E1 & F1) (A2 & B2 & C2 & D2 & E2 & F2).
  unfold err_step; split; [|split; [|split; [|split; [|split]]]]; auto.
  - intros e H; destruct (A2 e H); auto.
  - intros e H; destruct (B2 e H); auto.
Qed.

Lemma err_step_refl w : err_step w w.
Proof. unfold err_step; repeat split; auto. Qed.

Lemma err_step_add_trace c w : err_step w (add_trace c w).
Proof. unfold err_step; simpl; repeat split; auto. Qed.

Lemma err_step_set_chan c w : err_step w (set_chan c w).
Proof. unfold err_step; simpl; repeat split; auto. Qed.

Lemma err_step_set_main m w : err_step w (set_main m w).
Proof. unfold err_step; simpl; repeat split; auto. Qed.

Lemma err_step_set_tasks s t w : err_step w (set_tasks s t w).
Proof. unfold err_step; simpl; repeat split; auto. Qed.

Lemma err_step_after_register w : err_step w (after_register w).
Proof. unfold err_step; simpl; repeat split; auto; discriminate. Qed.

Lemma err_step_grp_cancel w : err_step w (grp_cancel w).
Proof.
  unfold err_step, grp_cancel, ctx_err; simpl; destruct (w_gerr w);
    repeat split; auto; try discriminate; intros e H; injection H as <-; auto.
Qed.

Lemma err_step_cancel_ctx e w : ctx_err e -> err_step w (cancel_ctx e w).
Proof.
  intro He; unfold cancel_ctx; destruct (w_aerr w); [apply err_step_refl|].
  unfold err_step; simpl; destruct (w_gerr w);
    repeat split; auto; try discriminate; intros e' H; injection H as <-; auto.
Qed.

Ltac err_chain :=
  match goal with
  | |- err_step ?w ?w => apply err_step_refl
  | |- err_step ?w (add_trace ?c ?w') =>
      apply (err_step_trans w w' (add_trace c w')); [err_chain | apply err_step_add_trace]
  | |- err_step ?w (cancel_ctx ?e ?w') =>
      apply (err_step_trans w w' (cancel_ctx e w'));
      [err_chain | apply err_step_cancel_ctx; left; reflexivity]
  | |- err_step ?w (set_chan ?c ?w') =>
      apply (err_step_trans w w' (set_chan c w')); [err_chain | apply err_step_set_chan]
  | |- err_step ?w (set_main ?m ?w') =>
      apply (err_step_trans w w' (set_main m w')); [err_chain | apply err_step_set_main]
  | |- err_step ?w (set_tasks ?s ?t ?w') =>
      apply (err_step_trans w w' (set_tasks s t w')); [err_chain | apply err_step_set_tasks]
  | |- err_step ?w (after_register ?w') =>
      apply (err_step_trans w w' (after_register w')); [err_chain | apply err_step_after_register]
  | |- err_step ?w (grp_cancel ?w') =>
      apply (err_step_trans w w' (grp_cancel w')); [err_chain | apply err_step_grp_cancel]
  end.

Lemma err_step_Stop a dr w : err_step w (snd (Stop a dr w)).
Proof.
  unfold Stop; destruct (opt_registry (app_opts a)); [destruct dr|];
    simpl; try destruct (app_cancel a); simpl; err_chain.
Qed.

Lemma err_inv_err_step w w' : err_inv w -> err_step w w' -> err_inv w'.
Proof.
  intros (A & B & C & D) (A' & B' & C' & D' & E' & F').
  split; [|split; [|split]].
  - intros e H; destruct (A' e H) as [H'|H']; [exact (A e H') | exact H'].
  - intros e H; destruct (B' e H) as [H'|H']; [exact (B e H') | exact H'].
  - intros e H; destruct (C e (C' e H)) as [H'|[i [H'|H']]];
      [left; exact H' | right; exists i; left; apply D'; exact H'
      | right; exists i; right; apply D'; exact H'].
  - intro Hw; apply F', D, E', Hw.
Qed.

Lemma err_inv_task_return r w :
  err_inv w -> (forall e, r = Some e -> origin e w) -> err_inv (task_return r w).
Proof.
  intros Inv Ho; destruct r as [e|]; [|unfold task_return; destruct (w_grp w); exact Inv].
  unfold task_return; destruct (w_grp w) eqn:G; [exact Inv|].
  destruct Inv as (A & B & C & D).
  unfold err_inv, grp_cancel; simpl.
  split; [exact A|].
  split; [destruct (w_gerr w) eqn:Eg;
          [intros e' H; apply B; congruence | intros e' H; injection H as <-; left; reflexivity]|].
  split; [intros e' H; injection H as <-; exact (Ho e eq_refl)|].
  intros _; destruct (w_gerr w); discriminate.
Qed.

Lemma err_inv_run_start a w : err_inv w -> err_inv (run_start a w).
Proof.
  intros (A & B & C & D); unfold run_start; destruct (opt_registry (app_opts a));
    unfold err_inv; simpl; (split; [exact A|]); (split; [exact A|]); split; discriminate.
Qed.

Lemma err_inv_step a w ev w' : err_inv w -> step a w ev = Some w' -> err_inv w'.
Proof.
  intros Inv Hs; pose proof Inv as (A & B & C & D).
  destruct ev as [| i r | i r | r | s | dr | | dr | dl | ]; cbv beta iota delta [step] in Hs.
  - destruct (w_main w); try discriminate; injection Hs as <-; exact (err_inv_run_start a w Inv).
  - destruct (nth_error (w_start_tasks w) i) as [[|]|]; try discriminate; injection Hs as <-.
    apply err_inv_task_return; [apply (err_inv_err_step w); [exact Inv | err_chain]|].
    intros e ->; right; exists i; left; simpl; left; reflexivity.
  - destruct (nth_error (w_stop_tasks w) i) as [[|]|], (w_gerr w) as [ge|]; try discriminate.
    injection Hs as <-.
    apply err_inv_task_return; [apply (err_inv_err_step w); [exact Inv | err_chain]|].
    intros e0 ->; right; exists i; right; simpl; left; reflexivity.
  - destruct (w_main w); try discriminate; destruct r; injection Hs as <-;
      apply (err_inv_err_step w); [exact Inv | err_chain | exact Inv | err_chain].
  - destruct (w_notified w && existsb (signal_eqb s) (opt_sigs (app_opts a))); [|discriminate].
    destruct (w_chan w); injection Hs as <-;
      [exact Inv | apply (err_inv_err_step w); [exact Inv | err_chain]].
  - destruct (w_watcher w), (w_chan w); try discriminate; injection Hs as <-.
    apply (err_inv_err_step w); [exact Inv|].
    eapply err_step_trans; [apply err_step_set_chan | apply err_step_Stop].
  - destruct (w_watcher w), (w_gerr w) as [ge|] eqn:Eg; try discriminate.
    assert (Hw' : task_return (Some ge) (set_watcher WDone w) = w')
      by (injection Hs as Hs; exact Hs).
    subst w'; apply err_inv_task_return.
    + unfold err_inv; simpl; split; [exact A|]; split; [intros e H; apply B; congruence|]; split; [exact C|].
      intros _; congruence.
    + intros e He; injection He as <-; left; apply B; congruence.
  - injection Hs as <-; apply (err_inv_err_step w); [exact Inv | apply err_step_Stop].
  - injection Hs as <-; apply (err_inv_err_step w); [exact Inv|].
    apply err_step_cancel_ctx; destruct dl; [right | left]; reflexivity.
  - destruct (w_main w); try discriminate; destruct (all_done w); [|discriminate].
    injection Hs as <-; apply (err_inv_err_step w); [exact Inv | err_chain].
Qed.

(** The watcher and [signal.Notify] come after a successful [Register]. *)
Definition reg_inv (a : App) (w : World) : Prop :=
  (w_watcher w <> WNotSpawned -> w_notified w = true) /\
  (opt_registry (app_opts a) <> None -> w_notified w = true ->
     exists j, In (TRegister j None) (w_trace w)).

Lemma reg_inv_frame a w w' :
  reg_inv a w ->
  (w_watcher w' <> WNotSpawned -> w_watcher w <> WNotSpawned) ->
  w_notified w' = w_notified w ->
  (forall c, In c (w_trace w) -> In c (w_trace w')) ->
  reg_inv a w'.
Proof.
  intros (G1 & G2) Hw Hn Ht; split.
  - intro H; rewrite Hn; exact (G1 (Hw H)).
  - intros Hr H; rewrite Hn in H; destruct (G2 Hr H) as [j Hj]; exists j; exact (Ht _ Hj).
Qed.

Lemma reg_inv_quiet a w w' : reg_inv a w -> quiet a w w' -> reg_inv a w'.
Proof.
  intros Inv (_ & _ & _ & D & _ & F & _ & _ & I & _).
  apply (reg_inv_frame a w w' Inv); [rewrite D; auto | exact F | exact I].
Qed.

Lemma reg_inv_step a w ev w' :
  run_inv a w -> reg_inv a w -> step a w ev = Some w' -> reg_inv a w'.
Proof.
  intros RI Inv Hs; pose proof RI as (R1 & _).
  destruct ev as [| i r | i r | r | s | dr | | dr | dl | ]; cbv beta iota delta [step] in Hs.
  - destruct (w_main w) eqn:Em; try discriminate; injection Hs as <-.
    destruct (R1 ltac:(first [reflexivity | exact Em])) as (_ & _ & _ & _ & _ & X6 & _).
    unfold run_start; destruct (opt_registry (app_opts a)) eqn:Er; unfold reg_inv; simpl.
    + split; [intro H; exfalso; apply H; reflexivity|].
      intros _ Hn; rewrite X6 in Hn; discriminate.
    + split; [reflexivity|]; intro H; exfalso; exact (H Er).
  - destruct (nth_error (w_start_tasks w) i) as [[|]|]; try discriminate; injection Hs as <-.
    set (w1 := add_trace (TStart i r) (set_tasks (w_stop_tasks w) (upd (w_start_tasks w) i TDone) w)).
    destruct (task_return_fields r w1) as (_ & _ & F3 & _ & F5 & _ & _).
    apply (reg_inv_frame a w _ Inv).
    + rewrite F3; auto.
    + exact (task_return_notified r w1).
    + intros c Hc; rewrite F5; right; exact Hc.
  - destruct (nth_error (w_stop_tasks w) i) as [[|]|], (w_gerr w); try discriminate.
    injection Hs as <-.
    set (w1 := add_trace (TStop i r) (set_tasks (upd (w_stop_tasks w) i TDone) (w_start_tasks w) w)).
    destruct (task_return_fields r w1) as (_ & _ & F3 & _ & F5 & _ & _).
    apply (reg_inv_frame a w _ Inv).
    + rewrite F3; auto.
    + exact (task_return_notified r w1).
    + intros c Hc; rewrite F5; right; exact Hc.
  - destruct (w_main w); try discriminate; destruct r; injection Hs as <-.
    + apply (reg_inv_frame a w _ Inv); simpl; auto.
    + unfold reg_inv; simpl; split; [reflexivity|].
      intros _ _; exists (w_inst w); left; reflexivity.
  - destruct (w_notified w && existsb (signal_eqb s) (opt_sigs (app_opts a))); [|discriminate].
    destruct (w_chan w); injection Hs as <-;
      [exact Inv | exact (reg_inv_quiet a w _ Inv (quiet_set_chan a _ w))].
  - destruct (w_watcher w), (w_chan w); try discriminate; injection Hs as <-.
    apply (reg_inv_quiet a w _ Inv).
    eapply quiet_trans; [apply quiet_set_chan | apply quiet_Stop].
  - destruct (w_watcher w) eqn:Ew, (w_gerr w) as [ge|]; try discriminate.
    assert (Hw' : task_return (Some ge) (set_watcher WDone w) = w')
      by (injection Hs as Hs; exact Hs).
    subst w'.
    destruct (task_return_fields (Some ge) (set_watcher WDone w)) as (_ & _ & F3 & _ & F5 & _ & _).
    apply (reg_inv_frame a w _ Inv).
    + intros _; rewrite Ew; discriminate.
    + exact (task_return_notified (Some ge) (set_watcher WDone w)).
    + intros c Hc; rewrite F5; exact Hc.
  - injection Hs as <-; exact (reg_inv_quiet a w _ Inv (quiet_Stop a dr w)).
  - injection Hs as <-; exact (reg_inv_quiet a w _ Inv (quiet_cancel_ctx a _ w)).
  - destruct (w_main w); try discriminate; destruct (all_done w); [|discriminate].
    injection Hs as <-; apply (reg_inv_frame a w _ Inv); simpl; auto.
Qed.

(** Everything known of the worlds reached by the schedules of an App. *)
Definition reach_inv (a : App) (w : World) : Prop :=
  ff_inv a w /\ run_inv a w /\ err_inv w /\ reg_inv a w.

Lemma reach_inv_world0 a : reach_inv a (world0 a).
Proof.
  split; [apply ff_inv_world0|]; split; [apply run_inv_world0|].
  split; [unfold err_inv; simpl; repeat split; discriminate|].
  unfold reg_inv; simpl; split; [intro H; exfalso; apply H; reflexivity | discriminate].
Qed.

Lemma reach_inv_step a w ev w' : reach_inv a w -> step a w ev = Some w' -> reach_inv a w'.
Proof.
  intros (FF & RI & EI & GI) Hs.
  split; [exact (ff_inv_step a w ev w' FF Hs)|].
  split; [exact (run_inv_step a w ev w' RI FF Hs)|].
  split; [exact (err_inv_step a w ev w' EI Hs)|].
  exact (reg_inv_step a w ev w' RI GI Hs).
Qed.

Lemma reach_inv_run_sched a w evs w' :
  reach_inv a w -> run_sched a w evs = Some w' -> reach_inv a w'.
Proof.
  revert w; induction evs as [|ev rest IH]; intros w H Hr; simpl in Hr.
  - injection Hr as <-; exact H.
  - destruct (step a w ev) as [w1|] eqn:E; [|discriminate].
    exact (IH w1 (reach_inv_step a w ev w1 H E) Hr).
Qed.

Lemma reachable_inv a evs w : run_sched a (world0 a) evs = Some w -> reach_inv a w.
Proof. apply reach_inv_run_sched, reach_inv_world0. Qed.

(** Steps that never change an error once a context is done or the group
    has recorded one. *)
Definition keeps (w w' : World) : Prop :=
  forall e, (w_aerr w = Some e -> w_aerr w' = Some e) /\
            (w_gerr w = Some e -> w_gerr w' = Some e) /\
            (w_grp w = Some e -> w_grp w' = Some e).

Lemma keeps_trans w1 w2 w3 : keeps w1 w2 -> keeps w2 w3 -> keeps w1 w3.
Proof.
  intros H1 H2 e; destruct (H1 e) as (A1 & B1 & C1); destruct (H2 e) as (A2 & B2 & C2).
  repeat split; auto.
Qed.

Lemma keeps_refl w : keeps w w.
Proof. intro e; repeat split; auto. Qed.

Lemma keeps_add_trace c w : keeps w (add_trace c w).
Proof. intro e; simpl; repeat split; auto. Qed.

Lemma keeps_set_chan c w : keeps w (set_chan c w).
Proof. intro e; simpl; repeat split; auto. Qed.

Lemma keeps_set_main m w : keeps w (set_main m w).
Proof. intro e; simpl; repeat split; auto. Qed.

Lemma keeps_set_tasks s t w : keeps w (set_tasks s t w).
Proof. intro e; simpl; repeat split; auto. Qed.

Lemma keeps_set_watcher x w : keeps w (set_watcher x w).
Proof. intro e; simpl; repeat split; auto. Qed.

Lemma keeps_after_register w : keeps w (after_register w).
Proof. intro e; simpl; repeat split; auto. Qed.

Lemma keeps_grp_cancel w : keeps w (grp_cancel w).
Proof. intro e; unfold grp_cancel; simpl; repeat split; auto; intros ->; reflexivity. Qed.

Lemma keeps_cancel_ctx e0 w : keeps w (cancel_ctx e0 w).
Proof.
  unfold cancel_ctx; destruct (w_aerr w) eqn:Ea; [apply keeps_refl|].
  intro e; simpl; repeat split; auto; [congruence | intros ->; reflexivity].
Qed.

Lemma keeps_task_return r w : keeps w (task_return r w).
Proof.
  unfold task_return; destruct r as [e0|]; [|destruct (w_grp w); apply keeps_refl].
  destruct (w_grp w) eqn:G; [apply keeps_refl|].
  intro e; unfold grp_cancel; simpl; repeat split; auto; [intros ->; reflexivity | congruence].
Qed.

Ltac keeps_chain :=
  match goal with
  | |- keeps ?w ?w => apply keeps_refl
  | |- keeps ?w (add_trace ?c ?w') =>
      apply (keeps_trans w w' (add_trace c w')); [keeps_chain | apply keeps_add_trace]
  | |- keeps ?w (cancel_ctx ?e ?w') =>
      apply (keeps_trans w w' (cancel_ctx e w')); [keeps_chain | apply keeps_cancel_ctx]
  | |- keeps ?w (set_chan ?c ?w') =>
      apply (keeps_trans w w' (set_chan c w')); [keeps_chain | apply keeps_set_chan]
  | |- keeps ?w (set_main ?m ?w') =>
      apply (keeps_trans w w' (set_main m w')); [keeps_chain | apply keeps_set_main]
  | |- keeps ?w (set_tasks ?s ?t ?w') =>
      apply (keeps_trans w w' (set_tasks s t w')); [keeps_chain | apply keeps_set_tasks]
  | |- keeps ?w (set_watcher ?x ?w') =>
      apply (keeps_trans w w' (set_watcher x w')); [keeps_chain | apply keeps_set_watcher]
  | |- keeps ?w (after_register ?w') =>
      apply (keeps_trans w w' (after_register w')); [keeps_chain | apply keeps_after_register]
  | |- keeps ?w (grp_cancel ?w') =>
      apply (keeps_trans w w' (grp_cancel w')); [keeps_chain | apply keeps_grp_cancel]
  | |- keeps ?w (task_return ?r ?w') =>
      apply (keeps_trans w w' (task_return r w')); [keeps_chain | apply keeps_task_return]
  end.

Lemma keeps_Stop a dr w : keeps w (snd (Stop a dr w)).
Proof.
  unfold Stop; destruct (opt_registry (app_opts a)); [destruct dr|];
    simpl; try destruct (app_cancel a); simpl; keeps_chain.
Qed.

Lemma keeps_step a w ev w' : run_inv a w -> step a w ev = Some w' -> keeps w w'.
Proof.
  intros (R1 & _) Hs.
  destruct ev as [| i r | i r | r | s | dr | | dr | dl | ]; cbv beta iota delta [step] in Hs.
  - destruct (w_main w) eqn:Em; try discriminate; injection Hs as <-.
    destruct (R1 ltac:(first [reflexivity | exact Em])) as (X1 & X2 & _).
    intro e; unfold run_start; destruct (opt_registry (app_opts a)); simpl;
      repeat split; auto; congruence.
  - destruct (nth_error (w_start_tasks w) i) as [[|]|]; try discriminate; injection Hs as <-.
    keeps_chain.
  - destruct (nth_error (w_stop_tasks w) i) as [[|]|], (w_gerr w); try discriminate.
    injection Hs as <-; keeps_chain.
  - destruct (w_main w); try discriminate; destruct r; injection Hs as <-; keeps_chain.
  - destruct (w_notified w && existsb (signal_eqb s) (opt_sigs (app_opts a))); [|discriminate].
    destruct (w_chan w); injection Hs as <-; keeps_chain.
  - destruct (w_watcher w), (w_chan w); try discriminate; injection Hs as <-.
    eapply keeps_trans; [apply keeps_set_chan | apply keeps_Stop].
  - destruct (w_watcher w), (w_gerr w) as [ge|]; try discriminate.
    assert (Hw' : task_return (Some ge) (set_watcher WDone w) = w')
      by (injection Hs as Hs; exact Hs).
    subst w'; keeps_chain.
  - injection Hs as <-; apply keeps_Stop.
  - injection Hs as <-; apply keeps_cancel_ctx.
  - destruct (w_main w); try discriminate; destruct (all_done w); [|discriminate].
    injection Hs as <-; keeps_chain.
Qed.

(** The slot of the signal channel, as a count. *)
Definition chan_bit (w : World) : nat := match w_chan w with Some _ => 1 | None => 0 end.

(** External calls of [Stop] in a schedule. *)
Definition count_ev_stops (evs : list Event) : nat :=
  length (filter (fun ev => match ev with EvStop _ => true | _ => false end) evs).

Definition ev_weight (ev : Event) : nat :=
  match ev with EvSignal _ | EvStop _ => 1 | _ => 0 end.

Lemma count_stops_Stop a dr w :
  count_stops (w_trace (snd (Stop a dr w))) = S (count_stops (w_trace w)).
Proof. exact (Stop_count_app_stop a dr w). Qed.

Lemma task_return_chan r w : w_chan (task_return r w) = w_chan w.
Proof. unfold task_return, grp_cancel; destruct r, (w_grp w); reflexivity. Qed.

Lemma step_stop_budget a w ev w' :
  step a w ev = Some w' ->
  count_stops (w_trace w') + chan_bit w' <= count_stops (w_trace w) + chan_bit w + ev_weight ev.
Proof.
  intro Hs; destruct ev as [| i r | i r | r | s | dr | | dr | dl | ];
    cbv beta iota delta [step] in Hs; simpl ev_weight.
  - destruct (w_main w); try discriminate; injection Hs as <-.
    unfold run_start; destruct (opt_registry (app_opts a)); unfold chan_bit, count_stops; simpl; lia.
  - destruct (nth_error (w_start_tasks w) i) as [[|]|]; try discriminate; injection Hs as <-.
    destruct (task_return_fields r (add_trace (TStart i r)
                (set_tasks (w_stop_tasks w) (upd (w_start_tasks w) i TDone) w)))
      as (_ & _ & _ & _ & F5 & _ & _).
    unfold chan_bit; rewrite F5, task_return_chan; unfold count_stops; simpl; lia.
  - destruct (nth_error (w_stop_tasks w) i) as [[|]|], (w_gerr w); try discriminate.
    injection Hs as <-.
    destruct (task_return_fields r (add_trace (TStop i r)
                (set_tasks (upd (w_stop_tasks w) i TDone) (w_start_tasks w) w)))
      as (_ & _ & _ & _ & F5 & _ & _).
    unfold chan_bit; rewrite F5, task_return_chan; unfold count_stops; simpl; lia.
  - destruct (w_main w); try discriminate; destruct r; injection Hs as <-;
      unfold chan_bit, count_stops; simpl; lia.
  - destruct (w_notified w && existsb (signal_eqb s) (opt_sigs (app_opts a))); [|discriminate].
    unfold chan_bit; destruct (w_chan w) eqn:Ec; injection Hs as <-; unfold count_stops; simpl; rewrite ?Ec; lia.
  - destruct (w_watcher w), (w_chan w) eqn:Ec; try discriminate; injection Hs as <-.
    destruct (Stop_fields a dr (set_chan None w)) as (_ & _ & _ & _ & _ & _ & Hc).
    unfold chan_bit; rewrite count_stops_Stop, Hc, Ec; unfold count_stops; simpl; lia.
  - destruct (w_watcher w), (w_gerr w) as [ge|]; try discriminate.
    assert (Hw' : task_return (Some ge) (set_watcher WDone w) = w')
      by (injection Hs as Hs; exact Hs).
    subst w'.
    destruct (task_return_fields (Some ge) (set_watcher WDone w)) as (_ & _ & _ & _ & F5 & _ & _).
    unfold chan_bit; rewrite F5, task_return_chan; unfold count_stops; simpl; lia.
  - injection Hs as <-.
    destruct (Stop_fields a dr w) as (_ & _ & _ & _ & _ & _ & Hc).
    unfold chan_bit; rewrite count_stops_Stop, Hc; lia.
  - injection Hs as <-; unfold chan_bit; rewrite cancel_ctx_trace, cancel_ctx_chan; lia.
  - destruct (w_main w); try discriminate; destruct (all_done w); [|discriminate].
    injection Hs as <-; unfold chan_bit, count_stops; simpl; lia.
Qed.

Lemma run_sched_stop_budget a w evs w' :
  run_sched a w evs = Some w' ->
  count_stops (w_trace w') + chan_bit w' <=
  count_stops (w_trace w) + chan_bit w + count_signals evs + count_ev_stops evs.
Proof.
  revert w; induction evs as [|ev rest IH]; intros w Hr; simpl in Hr.
  - injection Hr as <-; unfold count_signals, count_ev_stops; simpl; lia.
  - destruct (step a w ev) as [w1|] eqn:E; [|discriminate].
    pose proof (step_stop_budget a w ev w1 E) as H1; pose proof (IH w1 Hr) as H2.
    assert (Hc : count_signals (ev :: rest) + count_ev_stops (ev :: rest) =
                 ev_weight ev + count_signals rest + count_ev_stops rest)
      by (destruct ev; unfold count_signals, count_ev_stops; simpl; lia).
    lia.
Qed.

Lemma all_done_start_index w i :
  all_done w = true -> i < length (w_start_tasks w) -> nth_error (w_start_tasks w) i = Some TDone.
Proof.
  intros H Hi; destruct (nth_error (w_start_tasks w) i) as [[]|] eqn:E.
  - exfalso; exact (all_done_start w i H E).
  - reflexivity.
  - apply nth_error_None in E; lia.
Qed.




(** A parent context that times out. *)
Definition schedD : list Event :=
  [EvRun; EvParentDone true; EvWatcherDone; EvStopTask 0 None; EvStartReturn 0 None;
   EvWaitReturn].

(** ** Further properties *)

(** When [Run] returns from [g.Wait()], the [Start] of every server has
    returned and the [Stop] of every server has been called exactly once. *)
Theorem Run_wait_all_servers (a : App) (evs : list Event) (w : World) (r : option error)
    (Hrun : run_sched a (world0 a) evs = Some w)
    (Hret : w_main w = MReturned r)
    (Hwatch : w_watcher w <> WNotSpawned) :
  forall i, i < length (opt_servers (app_opts a)) ->
    (exists r1, In (TStart i r1) (w_trace w)) /\
    length (filter (is_stop_of i) (w_trace w)) = 1.
Proof.
  destruct (reachable_inv a evs w Hrun)
    as ((I1 & _ & _ & _ & I5) & (_ & R2 & R3 & R4 & _) & _ & _).
  destruct (I5 r Hret Hwatch) as [_ Hd].
  assert (Hm : w_main w <> MIdle) by (rewrite Hret; discriminate).
  intros i Hi; split.
  - apply R3, all_done_start_index; [exact Hd | rewrite R2; assumption].
  - rewrite R4; unfold stop_done.
    rewrite all_done_stop_index; [reflexivity | exact Hd | rewrite I1; assumption].
Qed.

Lemma Run_wait_all_servers_witness :
  (exists r1, In (TStart 1 r1) (w_trace (run_or appA schedA))) /\
  length (filter (is_stop_of 1) (w_trace (run_or appA schedA))) = 1.
Proof.
  exact (Run_wait_all_servers appA schedA (run_or appA schedA) (Some (Failure 2))
           ltac:(vm_compute; reflexivity) ltac:(vm_compute; reflexivity)
           ltac:(vm_compute; discriminate) 1 ltac:(vm_compute; lia)).
Defined.

(** In every run, the [Stop] of a server is called at most once, and only
    once the group context is done. *)
Theorem server_stop_at_most_once (a : App) (evs : list Event) (w : World)
    (Hrun : run_sched a (world0 a) evs = Some w) :
  forall i, length (filter (is_stop_of i) (w_trace w)) <= 1 /\
    (forall r, In (TStop i r) (w_trace w) -> w_gerr w <> None).
Proof.
  destruct (reachable_inv a evs w Hrun) as (_ & (_ & _ & _ & R4 & R5 & _) & _ & _).
  intro i; split; [rewrite R4; destruct (stop_done (w_stop_tasks w) i); lia|].
  intros r Hin; exact (R5 i r Hin).
Qed.

Lemma server_stop_at_most_once_witness :
  length (filter (is_stop_of 0) (w_trace (run_or appG schedG))) <= 1.
Proof.
  exact (proj1 (server_stop_at_most_once appG schedG (run_or appG schedG)
                  ltac:(vm_compute; reflexivity) 0)).
Defined.

(** An error returned by [Run] is the error of [Register], or an error
    returned by a server's [Start] or [Stop] that is not a cancellation, or
    [context.DeadlineExceeded] (the parent context timed out). *)
Theorem Run_error_origin (a : App) (evs : list Event) (w : World) (e : error)
    (Hrun : run_sched a (world0 a) evs = Some w)
    (Hret : w_main w = MReturned (Some e)) :
  (exists j, In (TRegister j (Some e)) (w_trace w)) \/
  ((exists i, In (TStart i (Some e)) (w_trace w) \/ In (TStop i (Some e)) (w_trace w)) /\
   errors_is e Canceled = false) \/
  e = DeadlineExceeded.
Proof.
  destruct (reachable_inv a evs w Hrun)
    as (_ & (_ & _ & _ & _ & _ & R6 & _) & (_ & _ & C & _) & _).
  destruct (R6 e Hret) as [Hreg | [Hg Hc]]; [left; exact Hreg | right].
  destruct (C e Hg) as [[-> | ->] | Ho].
  - vm_compute in Hc; discriminate.
  - right; reflexivity.
  - left; split; [exact Ho | exact Hc].
Qed.

Lemma Run_error_origin_witness :
  w_main (run_or appG schedD) = MReturned (Some DeadlineExceeded) /\
  ((exists j, In (TRegister j (Some DeadlineExceeded)) (w_trace (run_or appG schedD))) \/
   ((exists i, In (TStart i (Some DeadlineExceeded)) (w_trace (run_or appG schedD)) \/
               In (TStop i (Some DeadlineExceeded)) (w_trace (run_or appG schedD))) /\
    errors_is DeadlineExceeded Canceled = false) \/
   DeadlineExceeded = DeadlineExceeded).
Proof.
  split; [vm_compute; reflexivity|].
  exact (Run_error_origin appG schedD (run_or appG schedD) DeadlineExceeded
           ltac:(vm_compute; reflexivity) ltac:(vm_compute; reflexivity)).
Defined.

(** After [Register] fails, [Run] has returned its error for good: the
    watcher is never spawned, no signal is ever handled and [g.Wait()] is
    never called. *)
Theorem Run_register_failure_final (a : App) (evs : list Event) (w : World)
    (j : ServiceInstance) (e : error)
    (Hrun : run_sched a (world0 a) evs = Some w)
    (Hin : In (TRegister j (Some e)) (w_trace w)) :
  w_main w = MReturned (Some e) /\ w_watcher w = WNotSpawned /\
  (forall s, step a w (EvSignal s) = None) /\
  (forall dr, step a w (EvWatcherSignal dr) = None) /\
  step a w EvWatcherDone = None /\ step a w EvWaitReturn = None.
Proof.
  destruct (reachable_inv a evs w Hrun) as (_ & (_ & _ & _ & _ & _ & _ & R7 & _) & _ & _).
  destruct (R7 j e Hin) as (Hm & Hw & Hn).
  split; [exact Hm|]; split; [exact Hw|].
  split; [intro s; unfold step; rewrite Hn; reflexivity|].
  split; [intro dr; unfold step; rewrite Hw; reflexivity|].
  split; [unfold step; rewrite Hw; reflexivity|].
  unfold step; rewrite Hm; reflexivity.
Qed.

Lemma Run_register_failure_final_witness :
  w_main (run_or appR schedR) = MReturned (Some (Failure 7)) /\
  w_watcher (run_or appR schedR) = WNotSpawned.
Proof.
  destruct (Run_register_failure_final appR schedR (run_or appR schedR)
              (app_instance appR) (Failure 7)
              ltac:(vm_compute; reflexivity) ltac:(vm_compute; left; reflexivity))
    as (H1 & H2 & _).
  exact (conj H1 H2).
Defined.

(** Without a registry, neither [Run] nor [Stop] calls [Register] or
    [Deregister]. *)
Theorem no_registry_no_registry_calls (a : App) (evs : list Event) (w : World)
    (Hrun : run_sched a (world0 a) evs = Some w)
    (Hr : opt_registry (app_opts a) = None) :
  forall inst r, ~ In (TRegister inst r) (w_trace w) /\ ~ In (TDeregister inst r) (w_trace w).
Proof.
  destruct (reachable_inv a evs w Hrun) as (_ & (_ & _ & _ & _ & _ & _ & _ & _ & R9) & _ & _).
  intros inst r; split; apply (not_in_nil_filter is_reg_call); auto.
Qed.

Lemma no_registry_no_registry_calls_witness :
  ~ In (TDeregister (app_instance appG) None) (w_trace (run_or appG schedG)).
Proof.
  exact (proj2 (no_registry_no_registry_calls appG schedG (run_or appG schedG)
                  ltac:(vm_compute; reflexivity) ltac:(vm_compute; reflexivity)
                  (app_instance appG) None)).
Defined.

(** Once [a.ctx] or the group context is done, or the group has recorded
    its first error, no later step changes that error. *)
Theorem errors_stable (a : App) (evs : list Event) (w w' : World) (ev : Event) (e : error)
    (Hrun : run_sched a (world0 a) evs = Some w)
    (Hs : step a w ev = Some w') :
  (w_aerr w = Some e -> w_aerr w' = Some e) /\
  (w_gerr w = Some e -> w_gerr w' = Some e) /\
  (w_grp w = Some e -> w_grp w' = Some e).
Proof.
  destruct (reachable_inv a evs w Hrun) as (_ & RI & _ & _).
  exact (keeps_step a w ev w' RI Hs e).
Qed.

Lemma errors_stable_witness :
  w_grp (run_or appA [EvRun; EvStartReturn 1 (Some (Failure 2)); EvStartReturn 0 (Some (Failure 3))])
    = Some (Failure 2).
Proof.
  apply (proj2 (proj2 (errors_stable appA [EvRun; EvStartReturn 1 (Some (Failure 2))]
    (run_or appA [EvRun; EvStartReturn 1 (Some (Failure 2))])
    (run_or appA [EvRun; EvStartReturn 1 (Some (Failure 2)); EvStartReturn 0 (Some (Failure 3))])
    (EvStartReturn 0 (Some (Failure 3))) (Failure 2)
    ltac:(vm_compute; reflexivity) ltac:(vm_compute; reflexivity)))).
  vm_compute; reflexivity.
Defined.





(** [Run] returns from [g.Wait()] only after the watcher has returned,
    that is once the group context is done. *)
Theorem Run_wait_after_ctx_done (a : App) (evs : list Event) (w : World) (r : option error)
    (Hrun : run_sched a (world0 a) evs = Some w)
    (Hret : w_main w = MReturned r)
    (Hwatch : w_watcher w <> WNotSpawned) :
  w_watcher w = WDone /\ w_gerr w <> None.
Proof.
  destruct (reachable_inv a evs w Hrun) as ((_ & _ & _ & _ & I5) & _ & (_ & _ & _ & D) & _).
  destruct (I5 r Hret Hwatch) as [_ Hd].
  pose proof (all_done_watcher w Hd) as Hw.
  exact (conj Hw (D Hw)).
Qed.

Lemma Run_wait_after_ctx_done_witness :
  w_gerr (run_or appB schedB) <> None.
Proof.
  exact (proj2 (Run_wait_after_ctx_done appB schedB (run_or appB schedB) None
                  ltac:(vm_compute; reflexivity) ltac:(vm_compute; reflexivity)
                  ltac:(vm_compute; discriminate))).
Defined.

(** [Stop] is called at most once per signal delivered and once per
    external call: the one-slot channel never turns a signal into two
    calls. *)
Theorem Stop_calls_bounded (a : App) (evs : list Event) (w : World)
    (Hrun : run_sched a (world0 a) evs = Some w) :
  count_stops (w_trace w) <= count_signals evs + count_ev_stops evs.
Proof.
  pose proof (run_sched_stop_budget a (world0 a) evs w Hrun) as H.
  unfold chan_bit in H; simpl in H; lia.
Qed.

Lemma Stop_calls_bounded_witness :
  count_stops (w_trace (run_or appG schedS)) <= count_signals schedS + count_ev_stops schedS.
Proof.
  exact (Stop_calls_bounded appG schedS (run_or appG schedS) ltac:(vm_compute; reflexivity)).
Defined.

(** With a registry, [signal.Notify] and the watcher come only after a
    [Register] that succeeded. *)
Theorem watcher_after_register (a : App) (evs : list Event) (w : World)
    (Hrun : run_sched a (world0 a) evs = Some w)
    (Hreg : opt_registry (app_opts a) <> None)
    (Hw : w_notified w = true \/ w_watcher w <> WNotSpawned) :
  exists j, In (TRegister j None) (w_trace w).
Proof.
  destruct (reachable_inv a evs w Hrun) as (_ & _ & _ & (G1 & G2)).
  apply (G2 Hreg); destruct Hw as [Hn|Hw]; [exact Hn | exact (G1 Hw)].
Qed.

Lemma watcher_after_register_witness :
  exists j, In (TRegister j None) (w_trace (run_or appB [EvRun; EvRegisterReturn None])).
Proof.
  exact (watcher_after_register appB [EvRun; EvRegisterReturn None]
           (run_or appB [EvRun; EvRegisterReturn None])
           ltac:(vm_compute; reflexivity) ltac:(vm_compute; discriminate)
           ltac:(left; vm_compute; reflexivity)).
Defined.

